(** * Range copy / fill over nullable columns, and the device allocator

    A shallow embedding of
    - [cpp/src/copying/copy_range.cu]: the element sources
      ([scalar_factory], [column_range_factory]) and the public operations
      [copy_range] and [fill];
    - [src/memory/memory.cpp]: [RMM_CHECK_CUDA] and [rmmAlloc].

    Conventions.  An index ([gdf_index_type], [gdf_size_type]: C [int]) is
    a [Z]; arithmetic on it is written with its 32-bit two's-complement
    wrap-around ([wrap32]).  A device buffer is the list of the elements it
    holds, each element the bit pattern of its physical type as a
    non-negative [Z].  [gdf_column] is a plain C struct: a call that throws
    leaves whatever it had written so far, so every outcome carries the
    state reached. *)

From Stdlib Require Import ZArith Lia Bool List Ascii.
From stdpp Require Import base decidable option list numbers.
Import ListNotations.

Local Open Scope Z_scope.

(* ===================================================================== *)
(** ** Device memory manager ([src/memory/memory.cpp]) *)
(* ===================================================================== *)

Module Rmm.

(** [cudaError_t] of the CUDA runtime, by its numeric code. *)
Definition cudaError_t := Z.
Definition cudaSuccess : cudaError_t := 0.
Definition cudaErrorMemoryAllocation : cudaError_t := 2.

(** The [rmmError_t] values that [memory.cpp] returns. *)
Inductive rmmError_t :=
| RMM_SUCCESS
| RMM_ERROR_CUDA_ERROR
| RMM_ERROR_INVALID_ARGUMENT
| RMM_ERROR_OUT_OF_MEMORY
| RMM_ERROR_IO.

(** A device address; [NULL] is 0. *)
Definition void_ptr := Z.
Definition NULL : void_ptr := 0.

(** [rmm::Logger::MemEvent_t] and one record of [theLog].  The device
    number and the two time stamps of a record are left out. *)
Inductive MemEvent_t := Alloc | Realloc | Free.

Record MemEvent := {
  event : MemEvent_t;
  ptr : void_ptr;
  size : Z;
  stream : Z
}.

Definition Logger := list MemEvent.

(** [RMM_CHECK_CUDA(call)]: [Some e] makes the enclosing function
    return [e], [None] lets it go on. *)
Definition RMM_CHECK_CUDA (cudaError : cudaError_t) : option rmmError_t :=
  if cudaError =? cudaErrorMemoryAllocation then Some RMM_ERROR_OUT_OF_MEMORY
  else if negb (cudaError =? cudaSuccess) then Some RMM_ERROR_CUDA_ERROR
  else None.

(** What a call leaves behind: the value returned, the content of the
    slot [ptr] points to ([None] when [ptr] itself is null) and the
    log. *)
Record alloc_state := {
  returned : rmmError_t;
  slot : option void_ptr;
  theLog : Logger
}.

Section Device.

(** [cudaMalloc(ptr, size)] of the CUDA runtime: from the slot's
    content and the size, the status and what the slot holds
    afterwards. *)
Variable cudaMalloc : void_ptr -> Z -> cudaError_t * void_ptr.

(** [LogIt]'s destructor: on every exit the event is recorded with the
    pointer set so far. *)
Definition record (log : Logger) (p : void_ptr) (sz st : Z) : Logger :=
  log ++ [ {| event := Alloc; ptr := p; size := sz; stream := st |} ].

(** [rmmAlloc(void **ptr, size_t size, cudaStream_t stream)].
    [ptr_ = None] is a null [ptr]; [Some p] is a slot that holds [p]. *)
Definition rmmAlloc (ptr_ : option void_ptr) (size_ stream_ : Z)
           (log : Logger) : alloc_state :=
  if negb (bool_decide (is_Some ptr_)) && (size_ =? 0) then
    (* if (!ptr && !size) return RMM_SUCCESS; *)
    {| returned := RMM_SUCCESS; slot := ptr_;
       theLog := record log 0 size_ stream_ |}
  else if size_ =? 0 then
    (* else if (!size) { ptr[0] = NULL; return RMM_SUCCESS; } *)
    {| returned := RMM_SUCCESS; slot := (fun _ => NULL) <$> ptr_;
       theLog := record log 0 size_ stream_ |}
  else
    match ptr_ with
    | None =>
        (* if (!ptr) return RMM_ERROR_INVALID_ARGUMENT; *)
        {| returned := RMM_ERROR_INVALID_ARGUMENT; slot := None;
           theLog := record log 0 size_ stream_ |}
    | Some old =>
        (* RMM_CHECK_CUDA(cudaMalloc(ptr, size)); log.setPointer( *ptr); *)
        let '(cudaError, p) := cudaMalloc old size_ in
        match RMM_CHECK_CUDA cudaError with
        | Some e => {| returned := e; slot := Some p;
                       theLog := record log 0 size_ stream_ |}
        | None => {| returned := RMM_SUCCESS; slot := Some p;
                     theLog := record log p size_ stream_ |}
        end
    end.

End Device.

(** *** The scoped logger and the other entry points *)

(** [LogIt]: the event under construction.  Its constructors take the
    event, the size and the stream, and the pointer when it is known (0
    otherwise), and ask the runtime for the device ([cudaGetDevice]);
    [setPointer] sets the pointer later; its destructor appends the
    record to [theLog] on every exit of the enclosing function. *)
Definition LogIt := MemEvent.

Definition LogIt_open (ev : MemEvent_t) (p : void_ptr) (sz st : Z) : LogIt :=
  {| event := ev; ptr := p; size := sz; stream := st |}.

Definition setPointer (l : LogIt) (p : void_ptr) : LogIt :=
  {| event := event l; ptr := p; size := size l; stream := stream l |}.

Definition LogIt_close (l : LogIt) (log : Logger) : Logger := log ++ [l].

#[global] Instance rmmError_t_eq_dec : EqDecision rmmError_t.
Proof. solve_decision. Defined.

(** A call made to the CUDA runtime: [cudaGetDevice] (made by both
    constructors of [LogIt]), [cudaFree] and [cudaMalloc]. *)
Inductive runtime_call :=
| call_cudaGetDevice
| call_cudaFree (p : void_ptr)
| call_cudaMalloc (size_ : Z).

(** A non-null [void **ptr]: where the slot is and what it holds. *)
Record slot_ref := {
  address : void_ptr;
  holds : void_ptr
}.

Section Runtime.

(** The CUDA runtime: [cudaFree(p)] gives a status; [cudaMalloc(ptr,
    size)] gives, from the slot's content and the size, a status and
    what the slot holds afterwards; [cudaMemGetInfo(free, total)] gives a
    status and the two sizes it stores. *)
Variable cudaFree : void_ptr -> cudaError_t.
Variable cudaMalloc : void_ptr -> Z -> cudaError_t * void_ptr.
Variable cudaMemGetInfo : cudaError_t * (Z * Z).

(** [rmm::Logger::to_csv], the report of the log as text. *)
Variable to_csv : Logger -> list ascii.

(** [rmmError_t rmmInitialize()]. *)
Definition rmmInitialize : rmmError_t :=
  match RMM_CHECK_CUDA (cudaFree 0) with
  | Some e => e
  | None => RMM_SUCCESS
  end.

(** [rmmError_t rmmFinalize()]. *)
Definition rmmFinalize : rmmError_t := RMM_SUCCESS.

(** [rmmError_t rmmRealloc(void **ptr, size_t new_size, cudaStream_t
    stream)]: what the call leaves behind and the calls it made to the
    CUDA runtime, in order.  The first statement constructs [LogIt],
    whose constructor calls [cudaGetDevice]; the calls of the body
    follow.  The pointer logged on success is [ptr] itself, the address
    of the slot. *)
Definition rmmRealloc (ptr_ : option slot_ref) (new_size stream_ : Z)
           (log : Logger) : alloc_state * list runtime_call :=
  (* LogIt log(rmm::Logger::Realloc, new_size, stream); *)
  let l := LogIt_open Realloc 0 new_size stream_ in
  if negb (bool_decide (is_Some ptr_)) && (new_size =? 0) then
    (* if (!ptr && !new_size) return RMM_SUCCESS; *)
    ({| returned := RMM_SUCCESS; slot := holds <$> ptr_;
        theLog := LogIt_close l log |},
     [call_cudaGetDevice])
  else
    match ptr_ with
    | None =>
        (* if (!ptr) return RMM_ERROR_INVALID_ARGUMENT; *)
        ({| returned := RMM_ERROR_INVALID_ARGUMENT; slot := None;
            theLog := LogIt_close l log |},
         [call_cudaGetDevice])
    | Some r =>
        (* RMM_CHECK_CUDA(cudaFree( *ptr)); *)
        match RMM_CHECK_CUDA (cudaFree (holds r)) with
        | Some e => ({| returned := e; slot := Some (holds r);
                        theLog := LogIt_close l log |},
                     [call_cudaGetDevice; call_cudaFree (holds r)])
        | None =>
            (* RMM_CHECK_CUDA(cudaMalloc(ptr, new_size)); log.setPointer(ptr); *)
            let '(cudaError, p) := cudaMalloc (holds r) new_size in
            match RMM_CHECK_CUDA cudaError with
            | Some e => ({| returned := e; slot := Some p;
                            theLog := LogIt_close l log |},
                         [call_cudaGetDevice; call_cudaFree (holds r);
                          call_cudaMalloc new_size])
            | None => ({| returned := RMM_SUCCESS; slot := Some p;
                          theLog := LogIt_close (setPointer l (address r)) log |},
                       [call_cudaGetDevice; call_cudaFree (holds r);
                        call_cudaMalloc new_size])
            end
        end
    end.

(** [rmmError_t rmmFree(void *ptr, cudaStream_t stream)]: the value
    returned and the log. *)
Definition rmmFree (p : void_ptr) (stream_ : Z) (log : Logger)
  : rmmError_t * Logger :=
  let l := LogIt_open Free p 0 stream_ in
  match RMM_CHECK_CUDA (cudaFree p) with
  | Some e => (e, LogIt_close l log)
  | None => (RMM_SUCCESS, LogIt_close l log)
  end.

(** [rmmError_t rmmGetInfo(size_t *freeSize, size_t *totalSize,
    cudaStream_t stream)]: the value returned and the two sizes as the
    runtime stored them. *)
Definition rmmGetInfo : rmmError_t * (Z * Z) :=
  let '(cudaError, sizes) := cudaMemGetInfo in
  match RMM_CHECK_CUDA cudaError with
  | Some e => (e, sizes)
  | None => (RMM_SUCCESS, sizes)
  end.

(** [size_t rmmLogSize()]. *)
Definition rmmLogSize (log : Logger) : Z :=
  Z.of_nat (length (to_csv log)).

(** [rmmError_t rmmGetLog(char *buffer, size_t buffer_size)]: the value
    returned and the caller's buffer afterwards.
    [csv.str().copy(buffer, n)] writes the first [n] characters of the
    report at the start of the buffer and no terminator; no string
    operation throws [std::ofstream::failure], so the handler is never
    entered. *)
Definition rmmGetLog (buffer : list ascii) (buffer_size : Z) (log : Logger)
  : rmmError_t * list ascii :=
  let csv := to_csv log in
  let n := Z.to_nat (Z.min buffer_size (Z.of_nat (length csv))) in
  (RMM_SUCCESS, take n csv ++ drop n buffer).

End Runtime.


End Rmm.

(* ===================================================================== *)
(** ** Range copy and fill ([cpp/src/copying/copy_range.cu]) *)
(* ===================================================================== *)

Module Cudf.

(** *** Indices

    [gdf_size_type] and [gdf_index_type] are C [int]. *)
Definition wrap32 (z : Z) : Z := (z + 2 ^ 31) mod 2 ^ 32 - 2 ^ 31.

Definition int32 (z : Z) : Prop := - 2 ^ 31 <= z < 2 ^ 31.

(** *** Type tags *)

(** Modelled from the spec: the type tags of a column (the enum
    [gdf_dtype] is declared outside the two source files).  The spec asks
    for fixed-width numeric types and one distinguished category tag;
    only tags the dispatcher recognises are listed, so that dispatch on
    a tag is total. *)
Inductive gdf_dtype :=
| GDF_INT8
| GDF_INT16
| GDF_INT32
| GDF_INT64
| GDF_FLOAT32
| GDF_FLOAT64
| GDF_STRING_CATEGORY.

#[global] Instance gdf_dtype_eq_dec : EqDecision gdf_dtype.
Proof. solve_decision. Defined.

(** Modelled from the spec: the type dispatcher, as [sizeof(T)] in bytes
    of the physical type [T] a tag selects (category codes are 32-bit
    integers). *)
Definition size_of (t : gdf_dtype) : Z :=
  match t with
  | GDF_INT8 => 1
  | GDF_INT16 => 2
  | GDF_INT32 => 4
  | GDF_INT64 => 8
  | GDF_FLOAT32 => 4
  | GDF_FLOAT64 => 8
  | GDF_STRING_CATEGORY => 4
  end.

(** Status of the category collaborator: [GDF_SUCCESS] or some other
    code. *)
Inductive gdf_error :=
| GDF_SUCCESS
| GDF_FAILURE (code : positive).

#[global] Instance gdf_error_eq_dec : EqDecision gdf_error.
Proof. solve_decision. Defined.

(** *** Columns and scalars *)

Record gdf_dtype_extra_info := {
  category : Z                      (* void *category: the dictionary handle *)
}.

Record gdf_column := {
  data : list Z;                    (* void *data *)
  valid : list Z;                   (* gdf_valid_type *valid, as bit_mask_t words *)
  size : Z;                         (* gdf_size_type size *)
  dtype : gdf_dtype;
  null_count : Z;                   (* gdf_size_type null_count *)
  dtype_info : gdf_dtype_extra_info
}.

Record gdf_scalar := {
  scalar_data : Z;                  (* gdf_data data: the 8 raw bytes of the union *)
  scalar_dtype : gdf_dtype;
  scalar_is_valid : bool
}.

(** *** Null bitmap *)

(** [column_data[i]]; a read outside the buffer, undefined in the
    source, gives 0 here. *)
Definition load (buf : list Z) (i : Z) : Z :=
  if i <? 0 then 0 else default 0 (buf !! Z.to_nat i).

(** Modelled from the spec: [bit_mask::is_valid(bitmask, index)], the
    bit [index] of a bitmap packed into 32-bit words ([bit_mask_t]). *)
Definition is_valid (bitmask : list Z) (index : Z) : bool :=
  Z.testbit (load bitmask (index / 32)) (index mod 32).

(** Modelled from the spec: setting and clearing one validity bit. *)
Definition set_valid (bitmask : list Z) (index : Z) : list Z :=
  if index <? 0 then bitmask
  else <[Z.to_nat (index / 32) :=
           Z.setbit (load bitmask (index / 32)) (index mod 32)]> bitmask.

Definition clear_valid (bitmask : list Z) (index : Z) : list Z :=
  if index <? 0 then bitmask
  else <[Z.to_nat (index / 32) :=
           Z.clearbit (load bitmask (index / 32)) (index mod 32)]> bitmask.

(** The number of unset bits among the first [n] bits: a full scan. *)
Definition count_unset_bits (bitmask : list Z) (n : Z) : Z :=
  Z.of_nat (length (filter (fun i => is_valid bitmask i = false) (seqZ 0 n))).

(** *** Element sources ([namespace detail]) *)

(** [scalar_factory::scalar_functor<T>]. *)
Record scalar_functor := {
  value : Z;
  functor_is_valid : bool
}.

(** [column_range_factory::column_range_functor<T>]. *)
Record column_range_functor := {
  column_data : list Z;
  bitmask : list Z;
  begin : Z
}.

Inductive functor :=
| of_scalar (f : scalar_functor)
| of_column_range (f : column_range_functor).

(** [T data(gdf_index_type index)]. *)
Definition functor_data (f : functor) (index : Z) : Z :=
  match f with
  | of_scalar s => value s
  | of_column_range c => load (column_data c) (wrap32 (begin c + index))
  end.

(** [bool valid(gdf_index_type index)]. *)
Definition functor_valid (f : functor) (index : Z) : bool :=
  match f with
  | of_scalar s => functor_is_valid s
  | of_column_range c => is_valid (bitmask c) (wrap32 (begin c + index))
  end.

(** The two factories that [copy_range] and [fill] hand to
    [detail::copy_range]. *)
Inductive input_factory :=
| scalar_factory (value : gdf_scalar)
| column_range_factory (column : gdf_column) (begin : Z).

(** [operator()<T>()] of a factory, for the physical type of tag [T].
    The scalar's value is the first [sizeof(T)] bytes of the union
    ([memcpy(&val, &value.data, sizeof(T))], little-endian). *)
Definition make_functor (input : input_factory) (T : gdf_dtype) : functor :=
  match input with
  | scalar_factory v =>
      of_scalar {| value := Z.land (scalar_data v) (Z.ones (8 * size_of T));
                   functor_is_valid := scalar_is_valid v |}
  | column_range_factory c b =>
      of_column_range {| column_data := data c; bitmask := valid c; begin := b |}
  end.

(** *** Errors and effects *)

(** The [cudf::logic_error]s of the two operations, by cause:
    [validate] ([ValidationError]), "Data type mismatch", "Range is out
    of bounds", "Failed to synchronize NVCategory". *)
Inductive error :=
| ValidationError
| TypeMismatchError
| RangeError
| ReconciliationError.

(** What a call can reach: the column [out_column] points to, and the
    number of columns made by [cudf::copy] whose buffers have not been
    given to [gdf_column_free] yet. *)
Record world := {
  out_column : gdf_column;
  temporaries : nat
}.

Inductive outcome (A : Type) :=
| Returned (a : A) (w : world)
| Thrown (e : error) (w : world).
Arguments Returned {A} a w.
Arguments Thrown {A} e w.

Definition M (A : Type) : Type := world -> outcome A.

Definition ret {A} (a : A) : M A := fun w => Returned a w.

Definition throw {A} (e : error) : M A := fun w => Thrown e w.

Definition bind {A B} (m : M A) (k : A -> M B) : M B :=
  fun w =>
    match m w with
    | Returned a w' => k a w'
    | Thrown e w' => Thrown e w'
    end.

Notation "x <- m ;; k" := (bind m (fun x => k))
  (at level 100, m at next level, right associativity).
Notation "m ;; k" := (bind m (fun _ => k))
  (at level 100, right associativity).

(** [CUDF_EXPECTS(cond, reason)]. *)
Definition CUDF_EXPECTS (cond : bool) (reason : error) : M unit :=
  if cond then ret tt else throw reason.

(** [*out_column] read and written. *)
Definition get_out : M gdf_column := fun w => Returned (out_column w) w.

Definition put_out (c : gdf_column) : M unit :=
  fun w => Returned tt {| out_column := c; temporaries := temporaries w |}.

(** What a call of [detail::copy_range] on one column leaves: the column
    as written, and the error if it threw. *)
Inductive kernel_result :=
| Completed (c : gdf_column)
| Aborted (e : error) (c : gdf_column).

(** A kernel call on [out_column] itself, and on a local column. *)
Definition on_out_column (k : gdf_column -> kernel_result) : M unit :=
  fun w =>
    match k (out_column w) with
    | Completed c => Returned tt {| out_column := c; temporaries := temporaries w |}
    | Aborted e c => Thrown e {| out_column := c; temporaries := temporaries w |}
    end.

Definition on_local (k : gdf_column -> kernel_result) (c : gdf_column)
  : M gdf_column :=
  fun w =>
    match k c with
    | Completed c' => Returned c' w
    | Aborted e _ => Thrown e w
    end.

(** Modelled from the spec: [cudf::copy], a temporary copy of a column,
    owned by the caller. *)
Definition copy (c : gdf_column) : M gdf_column :=
  fun w => Returned c {| out_column := out_column w;
                         temporaries := S (temporaries w) |}.

(** Modelled from the spec: [gdf_column_free], the release of one
    column's buffers, bitmap and dictionary. *)
Definition gdf_column_free (c : gdf_column) : M unit :=
  fun w => Returned tt {| out_column := out_column w;
                          temporaries := Nat.pred (temporaries w) |}.

(** What [sync_column_categories] writes into the two temporaries: the
    status, and for each temporary the reconciled codes and the handle of
    its dictionary (it does not write the valid mask). *)
Record synced := {
  status : gdf_error;
  out_codes : list Z;
  out_category : Z;
  in_codes : list Z;
  in_category : Z
}.

Definition with_codes (c : gdf_column) (codes : list Z) (cat : Z) : gdf_column :=
  {| data := codes; valid := valid c; size := size c; dtype := dtype c;
     null_count := null_count c; dtype_info := {| category := cat |} |}.

Section Operations.

(** [validate(column)]: structural validation, declared outside the
    two source files. *)
Variable validate : gdf_column -> bool.

(** [sync_column_categories(input_cols, temp_cols, 2)], the external
    dictionary synchronisation: it reads the original pair and the
    temporaries. *)
Variable sync_column_categories :
  gdf_column * gdf_column -> gdf_column * gdf_column -> synced.

(** [detail::copy_range(out_column, input, begin, end)], declared in
    [copy_range.cuh]. *)
Variable detail_copy_range :
  gdf_column -> input_factory -> Z -> Z -> kernel_result.

(** [void copy_range(gdf_column *out_column, gdf_column const &in_column,
    gdf_index_type out_begin, gdf_index_type out_end,
    gdf_index_type in_begin)].  [in_column] is another object than
    [*out_column]. *)
Definition copy_range (in_column : gdf_column)
           (out_begin out_end in_begin : Z) : M unit :=
  let num_elements := wrap32 (out_end - out_begin) in
  if negb (num_elements =? 0) then
    CUDF_EXPECTS (validate in_column) ValidationError ;;
    out <- get_out ;;
    CUDF_EXPECTS (validate out) ValidationError ;;
    CUDF_EXPECTS (bool_decide (dtype out = dtype in_column)) TypeMismatchError ;;
    CUDF_EXPECTS ((0 <=? in_begin)
                  && (wrap32 (in_begin + num_elements) <=? size in_column))
                 RangeError ;;
    if bool_decide (dtype out = GDF_STRING_CATEGORY) then
      temp_out <- copy out ;;
      temp_in <- copy in_column ;;
      let s := sync_column_categories (out, in_column) (temp_out, temp_in) in
      let temp_out := with_codes temp_out (out_codes s) (out_category s) in
      let temp_in := with_codes temp_in (in_codes s) (in_category s) in
      CUDF_EXPECTS (bool_decide (GDF_SUCCESS = status s)) ReconciliationError ;;
      temp_out <- on_local
                    (fun c => detail_copy_range
                                c (column_range_factory temp_in in_begin)
                                out_begin out_end)
                    temp_out ;;
      (* std::swap of data, valid, null_count and dtype_info.category *)
      out <- get_out ;;
      put_out {| data := data temp_out; valid := valid temp_out;
                 size := size out; dtype := dtype out;
                 null_count := null_count temp_out;
                 dtype_info := dtype_info temp_out |} ;;
      let temp_out := {| data := data out; valid := valid out;
                         size := size temp_out; dtype := dtype temp_out;
                         null_count := null_count out;
                         dtype_info := dtype_info out |} in
      gdf_column_free temp_out ;;
      gdf_column_free temp_in
    else
      on_out_column
        (fun c => detail_copy_range
                    c (column_range_factory in_column in_begin)
                    out_begin out_end)
  else ret tt.

(** [void fill(gdf_column *column, gdf_scalar const& value,
    gdf_index_type begin, gdf_index_type end)]. *)
Definition fill (value : gdf_scalar) (begin end_ : Z) : M unit :=
  if negb (end_ =? begin) then
    column <- get_out ;;
    CUDF_EXPECTS (validate column) ValidationError ;;
    CUDF_EXPECTS (bool_decide (dtype column = scalar_dtype value))
                 TypeMismatchError ;;
    on_out_column
      (fun c => detail_copy_range c (scalar_factory value) begin end_)
  else ret tt.

End Operations.

(** *** The typed range copy kernel *)

(** One logical index [i] of the range: the element written at
    [begin + i], and its validity bit set or cleared. *)
Definition kernel_step (input : functor) (begin : Z)
           (st : list Z * list Z) (i : Z) : list Z * list Z :=
  let '(d, m) := st in
  let index := begin + i in
  (if index <? 0 then d else <[Z.to_nat index := functor_data input i]> d,
   if functor_valid input i then set_valid m index else clear_valid m index).

(** Modelled from the spec: [detail::copy_range] of [copy_range.cuh]
    (not among the source files), the typed range copy kernel behind
    the type dispatcher.  It validates the destination range; then for
    every logical index [i] of [[0, end - begin)] it writes
    [input.data(i)] at [begin + i] and sets or clears the validity bit
    there according to [input.valid(i)]; after all writes it stores the
    number of unset bits of [[0, size)] as [null_count].  The parallel
    loop is run in index order: the indices are written at most once. *)
Definition typed_range_copy_kernel (out : gdf_column) (input : input_factory)
           (begin end_ : Z) : kernel_result :=
  if (0 <=? begin) && (begin <=? end_) && (end_ <=? size out) then
    let f := make_functor input (dtype out) in
    let '(d, m) := fold_left (kernel_step f begin) (seqZ 0 (end_ - begin))
                             (data out, valid out) in
    Completed {| data := d; valid := m; size := size out; dtype := dtype out;
                 null_count := count_unset_bits m (size out);
                 dtype_info := dtype_info out |}
  else Aborted RangeError out.

(** *** Well-formed columns *)

(** The header of a column describes its buffers: [size] is a
    non-negative [int], [data] holds [size] elements and [valid] the
    bits of [size] elements. *)
Definition laid_out (c : gdf_column) : bool :=
  (0 <=? size c) && (size c <? 2 ^ 31)
  && (size c <=? Z.of_nat (length (data c)))
  && (size c <=? 32 * Z.of_nat (length (valid c))).

(** The column invariant: the cached [null_count] is the number of
    unset bits among the first [size] bits. *)
Definition null_count_cached (c : gdf_column) : Prop :=
  null_count c = count_unset_bits (valid c) (size c).

(** The value a scalar has at the physical type of its tag. *)
Definition scalar_value (v : gdf_scalar) : Z :=
  Z.land (scalar_data v) (Z.ones (8 * size_of (scalar_dtype v))).

(** The elements [copy_range] reads for the source: the source's own
    buffer, or for category columns the codes that the synchronisation
    wrote into the temporary copy of the source. *)
Definition source_elements
           (sync_column_categories :
              gdf_column * gdf_column -> gdf_column * gdf_column -> synced)
           (out in_column : gdf_column) : list Z :=
  if bool_decide (dtype out = GDF_STRING_CATEGORY)
  then in_codes (sync_column_categories (out, in_column) (out, in_column))
  else data in_column.

End Cudf.

(* ===================================================================== *)
(** ** Inputs of the worked scenarios *)
(* ===================================================================== *)

Module Scenario.

Import Cudf.

(** A column of at most 32 elements of tag [t] with bitmap word [bits]
    and dictionary handle 0. *)
Definition column (t : gdf_dtype) (d : list Z) (bits nulls : Z) : gdf_column :=
  {| data := d; valid := [bits]; size := Z.of_nat (length d); dtype := t;
     null_count := nulls; dtype_info := {| category := 0 |} |}.

Definition start (c : gdf_column) : world :=
  {| out_column := c; temporaries := 0 |}.

(** A validation that accepts the columns that are laid out. *)
Definition validate : gdf_column -> bool := laid_out.

(** A synchronisation that reports success and leaves every code as
    it is (the two dictionaries were equal). *)
Definition sync_same (orig temps : gdf_column * gdf_column) : synced :=
  {| status := GDF_SUCCESS;
     out_codes := data (fst temps); out_category := 1;
     in_codes := data (snd temps); in_category := 2 |}.

(** A synchronisation that reports success where the merged dictionary
    has one value of the destination before all values of the source:
    every code of the source moves up by one. *)
Definition sync_shift (orig temps : gdf_column * gdf_column) : synced :=
  {| status := GDF_SUCCESS;
     out_codes := data (fst temps); out_category := 1;
     in_codes := Z.succ <$> data (snd temps); in_category := 2 |}.

(** A synchronisation that does not report success. *)
Definition sync_fail (orig temps : gdf_column * gdf_column) : synced :=
  {| status := GDF_FAILURE 1;
     out_codes := data (fst temps); out_category := 0;
     in_codes := data (snd temps); in_category := 0 |}.

(** A kernel path that accepts every range and writes nothing. *)
Definition kernel_idle (c : gdf_column) (input : input_factory)
           (begin end_ : Z) : kernel_result := Completed c.

(** A kernel path that accepts every range and leaves the range it was
    given as the column's data. *)
Definition kernel_probe (c : gdf_column) (input : input_factory)
           (begin end_ : Z) : kernel_result :=
  Completed {| data := [begin; end_]; valid := valid c; size := size c;
               dtype := dtype c; null_count := null_count c;
               dtype_info := dtype_info c |}.

(** An allocator whose device is out of memory, and one whose device
    fails otherwise (code 30). *)
Definition cudaMalloc_no_memory (old : Rmm.void_ptr) (size_ : Z)
  : Rmm.cudaError_t * Rmm.void_ptr := (Rmm.cudaErrorMemoryAllocation, old).

Definition cudaMalloc_broken (old : Rmm.void_ptr) (size_ : Z)
  : Rmm.cudaError_t * Rmm.void_ptr := (30, old).

(** A runtime whose [cudaFree] succeeds, one whose [cudaFree] fails (code
    30), and a [cudaMalloc] that succeeds with the block at 4096. *)
Definition cudaFree_ok (p : Rmm.void_ptr) : Rmm.cudaError_t := Rmm.cudaSuccess.

Definition cudaFree_broken (p : Rmm.void_ptr) : Rmm.cudaError_t := 30.

Definition cudaMalloc_ok (old : Rmm.void_ptr) (size_ : Z)
  : Rmm.cudaError_t * Rmm.void_ptr := (Rmm.cudaSuccess, 4096).

(** A report with one character for each event of the log. *)
Definition to_csv (log : Rmm.Logger) : list ascii :=
  (fun ev => match Rmm.event ev with
             | Rmm.Alloc => "A"%char
             | Rmm.Realloc => "R"%char
             | Rmm.Free => "F"%char
             end) <$> log.

End Scenario.


(* ===================================================================== *)
(** ** Facts about the embedding *)
(* ===================================================================== *)

Import Cudf.

(** *** The model on small inputs *)

Example wrap32_at_the_edge :
  wrap32 (2 ^ 31 - 1 + 1) = - 2 ^ 31 /\ wrap32 (1 - 4) = -3.
Proof. split; reflexivity. Qed.

Example is_valid_reads_packed_bits :
  is_valid [5] 0 = true /\ is_valid [5] 1 = false /\ is_valid [0; 1] 32 = true.
Proof. repeat split. Qed.

Example set_then_clear_valid :
  set_valid [0; 0] 33 = [0; 2] /\ clear_valid [15] 2 = [11].
Proof. split; reflexivity. Qed.

Example count_unset_bits_scans_size_bits :
  count_unset_bits [9] 4 = 2 /\ count_unset_bits [9] 32 = 30.
Proof. split; reflexivity. Qed.

Example scalar_value_is_cut_to_the_type :
  scalar_value {| scalar_data := 2 ^ 32 + 7; scalar_dtype := GDF_INT32;
                  scalar_is_valid := true |} = 7.
Proof. reflexivity. Qed.

(** The category path with a synchronisation that succeeds hands both
    temporaries back. *)
Example category_copy_releases_temporaries :
  copy_range Scenario.validate Scenario.sync_same typed_range_copy_kernel
             (Scenario.column GDF_STRING_CATEGORY [0; 1; 2; 3; 4] 29 1) 1 4 2
             (Scenario.start (Scenario.column GDF_STRING_CATEGORY [0; 0; 0; 0; 0] 31 0))
  = Returned tt
      {| out_column :=
           {| data := [0; 2; 3; 4; 0]; valid := [31]; size := 5;
              dtype := GDF_STRING_CATEGORY; null_count := 0;
              dtype_info := {| category := 1 |} |};
         temporaries := 0 |}.
Proof. reflexivity. Qed.

(** An invalid source element makes the destination element invalid. *)
Example copy_range_carries_nulls :
  copy_range Scenario.validate Scenario.sync_same typed_range_copy_kernel
             (Scenario.column GDF_INT32 [10; 20; 30; 40; 50] 23 1) 0 2 3
             (Scenario.start (Scenario.column GDF_INT32 [0; 0; 0; 0; 0] 31 0))
  = Returned tt (Scenario.start (Scenario.column GDF_INT32 [40; 50; 0; 0; 0] 30 1)).
Proof. reflexivity. Qed.

(** *** Index arithmetic *)

Lemma wrap32_int32 z : int32 z -> wrap32 z = z.
Proof.
  unfold int32, wrap32. intros Hz.
  rewrite Z.mod_small by lia. lia.
Qed.

Lemma wrap32_sub_diag z : wrap32 (z - z) = 0.
Proof. rewrite Z.sub_diag. reflexivity. Qed.

Lemma wrap32_sub_eq0 a b : int32 a -> int32 b -> wrap32 (a - b) = 0 -> a = b.
Proof.
  unfold int32, wrap32. intros Ha Hb H.
  assert (Hm : (a - b + 2 ^ 31) mod 2 ^ 32 = 2 ^ 31) by lia.
  destruct (Z.le_gt_cases (- 2 ^ 31) (a - b)) as [Hlo | Hlo].
  - destruct (Z.lt_ge_cases (a - b) (2 ^ 31)) as [Hhi | Hhi].
    + rewrite Z.mod_small in Hm by lia. lia.
    + replace (a - b + 2 ^ 31) with ((a - b - 2 ^ 31) + 1 * 2 ^ 32) in Hm by lia.
      rewrite Z.mod_add in Hm by lia. rewrite Z.mod_small in Hm by lia. lia.
  - replace (a - b + 2 ^ 31) with ((a - b + 2 ^ 31 + 2 ^ 32) + (-1) * 2 ^ 32) in Hm by lia.
    rewrite Z.mod_add in Hm by lia. rewrite Z.mod_small in Hm by lia. lia.
Qed.

(** *** Buffers and bitmaps *)

Lemma load_insert (d : list Z) (q p x : Z) :
  0 <= q -> (Z.to_nat q < length d)%nat -> 0 <= p ->
  load (<[Z.to_nat q := x]> d) p = if decide (p = q) then x else load d p.
Proof.
  intros Hq Hlen Hp. unfold load.
  destruct (p <? 0) eqn:E; [apply Z.ltb_lt in E; lia|].
  destruct (decide (p = q)) as [->|Hne].
  - rewrite list_lookup_insert_eq by assumption. reflexivity.
  - rewrite list_lookup_insert_ne by lia. reflexivity.
Qed.

Lemma bit_position_eq p q : p / 32 = q / 32 -> p mod 32 = q mod 32 -> p = q.
Proof.
  intros Hd Hm.
  rewrite (Z.div_mod p 32), (Z.div_mod q 32) by lia. congruence.
Qed.

Lemma is_valid_set_valid (m : list Z) (q p : Z) :
  0 <= q -> q / 32 < Z.of_nat (length m) -> 0 <= p ->
  is_valid (set_valid m q) p = if decide (p = q) then true else is_valid m p.
Proof.
  intros Hq Hlen Hp. unfold is_valid, set_valid.
  destruct (q <? 0) eqn:E; [apply Z.ltb_lt in E; lia|].
  assert (0 <= q / 32) by (apply Z.div_pos; lia).
  assert (0 <= p / 32) by (apply Z.div_pos; lia).
  assert (0 <= q mod 32 < 32) by (apply Z.mod_pos_bound; lia).
  rewrite load_insert by lia.
  destruct (decide (p / 32 = q / 32)) as [Hw|Hw].
  - rewrite Z.setbit_eqb by lia.
    destruct (decide (p = q)) as [->|Hne].
    + rewrite Z.eqb_refl. reflexivity.
    + destruct (Z.eqb_spec (q mod 32) (p mod 32)) as [Hb|Hb].
      * exfalso. apply Hne. apply bit_position_eq; congruence.
      * rewrite Hw. reflexivity.
  - destruct (decide (p = q)) as [->|Hne]; [congruence | reflexivity].
Qed.

Lemma is_valid_clear_valid (m : list Z) (q p : Z) :
  0 <= q -> q / 32 < Z.of_nat (length m) -> 0 <= p ->
  is_valid (clear_valid m q) p = if decide (p = q) then false else is_valid m p.
Proof.
  intros Hq Hlen Hp. unfold is_valid, clear_valid.
  destruct (q <? 0) eqn:E; [apply Z.ltb_lt in E; lia|].
  assert (0 <= q / 32) by (apply Z.div_pos; lia).
  assert (0 <= p / 32) by (apply Z.div_pos; lia).
  assert (0 <= q mod 32 < 32) by (apply Z.mod_pos_bound; lia).
  rewrite load_insert by lia.
  destruct (decide (p / 32 = q / 32)) as [Hw|Hw].
  - rewrite Z.clearbit_eqb by lia.
    destruct (decide (p = q)) as [->|Hne].
    + rewrite Z.eqb_refl. apply andb_false_r.
    + destruct (Z.eqb_spec (q mod 32) (p mod 32)) as [Hb|Hb].
      * exfalso. apply Hne. apply bit_position_eq; congruence.
      * rewrite Hw. apply andb_true_r.
  - destruct (decide (p = q)) as [->|Hne]; [congruence | reflexivity].
Qed.

Lemma length_set_valid m q : length (set_valid m q) = length m.
Proof. unfold set_valid. destruct (q <? 0); [reflexivity | apply length_insert]. Qed.

Lemma length_clear_valid m q : length (clear_valid m q) = length m.
Proof. unfold clear_valid. destruct (q <? 0); [reflexivity | apply length_insert]. Qed.

(** *** The kernel loop *)

Lemma kernel_step_spec (f : functor) (b : Z) (d m : list Z) (i : Z) :
  0 <= b + i -> b + i < Z.of_nat (length d) ->
  (b + i) / 32 < Z.of_nat (length m) ->
  exists d1 m1,
    kernel_step f b (d, m) i = (d1, m1) /\
    length d1 = length d /\ length m1 = length m /\
    forall p, 0 <= p ->
      load d1 p = (if decide (p = b + i) then functor_data f i else load d p) /\
      is_valid m1 p = (if decide (p = b + i) then functor_valid f i else is_valid m p).
Proof.
  intros H0 Hd Hm. unfold kernel_step.
  destruct (b + i <? 0) eqn:E; [apply Z.ltb_lt in E; lia|].
  eexists _, _. split; [reflexivity|].
  split; [apply length_insert|].
  split; [destruct (functor_valid f i);
          [apply length_set_valid | apply length_clear_valid]|].
  intros p Hp. split.
  - apply load_insert; lia.
  - destruct (functor_valid f i).
    + apply is_valid_set_valid; assumption.
    + apply is_valid_clear_valid; assumption.
Qed.

Lemma kernel_loop_spec (f : functor) (b : Z) (l : list Z) :
  forall d m d' m',
    fold_left (kernel_step f b) l (d, m) = (d', m') ->
    (forall i, i ∈ l ->
       0 <= b + i /\ b + i < Z.of_nat (length d) /\
       (b + i) / 32 < Z.of_nat (length m)) ->
    length d' = length d /\ length m' = length m /\
    forall p, 0 <= p ->
      load d' p = (if decide (p - b ∈ l) then functor_data f (p - b) else load d p) /\
      is_valid m' p = (if decide (p - b ∈ l) then functor_valid f (p - b)
                       else is_valid m p).
Proof.
  induction l as [|i l IH]; intros d m d' m' Hfold Hin.
  - simpl in Hfold. injection Hfold as <- <-.
    repeat split; destruct (decide (p - b ∈ [])) as [Hel|_];
      solve [reflexivity | inversion Hel].
  - destruct (Hin i) as (Hi0 & Hid & Him); [left|].
    destruct (kernel_step_spec f b d m i Hi0 Hid Him)
      as (d1 & m1 & Hstep & Hld & Hlm & Hone).
    cbn [fold_left] in Hfold. rewrite Hstep in Hfold.
    destruct (IH d1 m1 d' m' Hfold) as (Hld' & Hlm' & Hrest).
    { intros j Hj. rewrite Hld, Hlm. apply Hin. right. exact Hj. }
    split; [congruence|]. split; [congruence|].
    intros p Hp. destruct (Hrest p Hp) as [Hdata Hbit].
    destruct (Hone p Hp) as [Hdata1 Hbit1].
    rewrite Hdata, Hbit, Hdata1, Hbit1.
    destruct (decide (p - b ∈ l)) as [Hl|Hl].
    + rewrite !decide_True by (right; exact Hl). split; reflexivity.
    + destruct (decide (p = b + i)) as [->|Hne].
      * replace (b + i - b) with i by lia.
        rewrite !decide_True by left. split; reflexivity.
      * assert (Hnot : ~ p - b ∈ i :: l).
        { intros Hel. apply elem_of_cons in Hel as [Heq|Hel]; [lia | contradiction]. }
        rewrite !decide_False by exact Hnot. split; reflexivity.
Qed.

(** *** The typed range copy kernel *)

Lemma laid_out_spec (c : gdf_column) :
  laid_out c = true ->
  0 <= size c /\ size c < 2 ^ 31 /\
  size c <= Z.of_nat (length (data c)) /\
  size c <= 32 * Z.of_nat (length (valid c)).
Proof.
  unfold laid_out. rewrite !andb_true_iff.
  rewrite !Z.leb_le, Z.ltb_lt. tauto.
Qed.

(** Whatever the range, the kernel either completes, keeping the header
    and storing a freshly counted [null_count], or aborts with
    [RangeError] before it has written anything. *)
Lemma typed_range_copy_kernel_cases out input b e :
  (exists c, typed_range_copy_kernel out input b e = Completed c /\
             size c = size out /\ dtype c = dtype out /\
             dtype_info c = dtype_info out /\ null_count_cached c)
  \/ typed_range_copy_kernel out input b e = Aborted RangeError out.
Proof.
  unfold typed_range_copy_kernel.
  destruct ((0 <=? b) && (b <=? e) && (e <=? size out)); [left | right; reflexivity].
  destruct (fold_left _ _ _) as [d m].
  eexists. split; [reflexivity|]. repeat split.
Qed.

(** On a laid-out column and a range inside it the kernel completes: the
    range holds what the source supplies, the rest is as before. *)
Lemma typed_range_copy_kernel_spec out input b e :
  laid_out out = true -> 0 <= b -> b <= e -> e <= size out ->
  exists c,
    typed_range_copy_kernel out input b e = Completed c /\
    size c = size out /\ dtype c = dtype out /\ dtype_info c = dtype_info out /\
    null_count_cached c /\
    forall p, 0 <= p ->
      load (data c) p =
        (if decide (b <= p < e)
         then functor_data (make_functor input (dtype out)) (p - b)
         else load (data out) p) /\
      is_valid (valid c) p =
        (if decide (b <= p < e)
         then functor_valid (make_functor input (dtype out)) (p - b)
         else is_valid (valid out) p).
Proof.
  intros Hlay Hb Hbe He.
  apply laid_out_spec in Hlay as (Hs0 & Hs31 & Hd & Hm).
  unfold typed_range_copy_kernel.
  replace ((0 <=? b) && (b <=? e) && (e <=? size out)) with true
    by (symmetry; rewrite !andb_true_iff, !Z.leb_le; lia).
  destruct (fold_left _ _ _) as [d m] eqn:Hfold.
  apply kernel_loop_spec in Hfold as (Hld & Hlm & Hall).
  - eexists. split; [reflexivity|]. repeat split; cbn.
    + rewrite (proj1 (Hall p H)).
      destruct (decide (b <= p < e)) as [Hin|Hout].
      * rewrite decide_True by (apply elem_of_seqZ; lia). reflexivity.
      * rewrite decide_False by (rewrite elem_of_seqZ; lia). reflexivity.
    + rewrite (proj2 (Hall p H)).
      destruct (decide (b <= p < e)) as [Hin|Hout].
      * rewrite decide_True by (apply elem_of_seqZ; lia). reflexivity.
      * rewrite decide_False by (rewrite elem_of_seqZ; lia). reflexivity.
  - intros i Hi. apply elem_of_seqZ in Hi.
    split; [lia|]. split; [lia|].
    apply Z.div_lt_upper_bound; lia.
Qed.

(** *** The public operations, path by path *)

Section Paths.

Local Arguments wrap32 : simpl never.

Variable validate : gdf_column -> bool.
Variable sync_column_categories :
  gdf_column * gdf_column -> gdf_column * gdf_column -> synced.
Variable detail_copy_range :
  gdf_column -> input_factory -> Z -> Z -> kernel_result.

(** The checks of [copy_range] in the order the source makes them. *)
Lemma copy_range_checks in_column out_begin out_end in_begin w :
  copy_range validate sync_column_categories detail_copy_range
             in_column out_begin out_end in_begin w =
  if wrap32 (out_end - out_begin) =? 0 then Returned tt w
  else if negb (validate in_column) then Thrown ValidationError w
  else if negb (validate (out_column w)) then Thrown ValidationError w
  else if negb (bool_decide (dtype (out_column w) = dtype in_column))
       then Thrown TypeMismatchError w
  else if negb ((0 <=? in_begin)
                && (wrap32 (in_begin + wrap32 (out_end - out_begin))
                    <=? size in_column))
       then Thrown RangeError w
  else if bool_decide (dtype (out_column w) = GDF_STRING_CATEGORY) then
    let out := out_column w in
    let s := sync_column_categories (out, in_column) (out, in_column) in
    let leaking := {| out_column := out; temporaries := S (S (temporaries w)) |} in
    if negb (bool_decide (GDF_SUCCESS = status s))
    then Thrown ReconciliationError leaking
    else
      match detail_copy_range
              (with_codes out (out_codes s) (out_category s))
              (column_range_factory
                 (with_codes in_column (in_codes s) (in_category s)) in_begin)
              out_begin out_end with
      | Completed t =>
          Returned tt
            {| out_column :=
                 {| data := data t; valid := valid t; size := size out;
                    dtype := dtype out; null_count := null_count t;
                    dtype_info := dtype_info t |};
               temporaries := temporaries w |}
      | Aborted e _ => Thrown e leaking
      end
  else
    on_out_column
      (fun c => detail_copy_range c (column_range_factory in_column in_begin)
                                  out_begin out_end) w.
Proof.
  destruct w as [out n].
  unfold copy_range, bind, CUDF_EXPECTS, get_out, put_out,
    on_local, copy, gdf_column_free, ret, throw.
  cbn.
  destruct (wrap32 (out_end - out_begin) =? 0); [reflexivity|]. cbn.
  destruct (validate in_column); [|reflexivity]. cbn.
  destruct (validate out); [|reflexivity]. cbn.
  destruct (bool_decide (dtype out = dtype in_column)); [|reflexivity]. cbn.
  destruct ((0 <=? in_begin) && _); [|reflexivity]. cbn.
  destruct (bool_decide (dtype out = GDF_STRING_CATEGORY)); [|reflexivity].
  cbn.
  destruct (bool_decide (GDF_SUCCESS = status _)); [|reflexivity]. cbn.
  destruct (detail_copy_range _ _ _ _); reflexivity.
Qed.

(** The checks of [fill]. *)
Lemma fill_checks value b e w :
  fill validate detail_copy_range value b e w =
  if e =? b then Returned tt w
  else if negb (validate (out_column w)) then Thrown ValidationError w
  else if negb (bool_decide (dtype (out_column w) = scalar_dtype value))
       then Thrown TypeMismatchError w
  else on_out_column (fun c => detail_copy_range c (scalar_factory value) b e) w.
Proof.
  destruct w as [out n].
  unfold fill, bind, CUDF_EXPECTS, get_out, ret, throw.
  cbn.
  destruct (e =? b); [reflexivity|]. cbn.
  destruct (validate out); [|reflexivity]. cbn.
  destruct (bool_decide (dtype out = scalar_dtype value)); reflexivity.
Qed.

End Paths.

(* ===================================================================== *)
(** ** The claims *)
(* ===================================================================== *)

Section Claims.

Local Arguments wrap32 : simpl never.

Variable validate : gdf_column -> bool.
Variable sync_column_categories :
  gdf_column * gdf_column -> gdf_column * gdf_column -> synced.

(** C7.  A zero-length range ([out_end == out_begin] for [copy_range],
    [end == begin] for [fill]) makes the call return at once: nothing is
    validated, nothing is thrown, and the destination column (data
    buffer, bitmap, null count) is exactly as before.  This holds for
    every validation, synchronisation and kernel path. *)
Theorem zero_length_range_is_noop
        (detail_copy_range : gdf_column -> input_factory -> Z -> Z -> kernel_result)
        (in_column : gdf_column) (value : gdf_scalar) (b in_begin : Z) (w : world) :
  copy_range validate sync_column_categories detail_copy_range
             in_column b b in_begin w = Returned tt w
  /\ fill validate detail_copy_range value b b w = Returned tt w.
Proof.
  split.
  - rewrite copy_range_checks, wrap32_sub_diag. reflexivity.
  - rewrite fill_checks, Z.eqb_refl. reflexivity.
Qed.


(** C10.  [copy_range] does not check [out_begin <= out_end].  With
    [out_end < out_begin] the element count [out_end - out_begin] is
    negative, hence not zero, and the call is not a no-op; the bound
    check of the source range is made with that negative count, so it
    passes whenever [0 <= in_begin] and
    [in_begin + (out_end - out_begin) <= in_column.size] (for instance
    [in_begin = 0]); the call then goes on into the kernel path with the
    inverted range instead of failing with [RangeError]: its outcome is
    the outcome of the kernel call on the destination, which returns
    with the column the kernel wrote or throws what the kernel threw. *)
Theorem copy_range_inverted_range_reaches_kernel
        (detail_copy_range : gdf_column -> input_factory -> Z -> Z -> kernel_result)
        (in_column : gdf_column) (out_begin out_end in_begin : Z) (w : world) :
  int32 out_begin -> int32 out_end -> int32 in_begin ->
  out_end < out_begin ->
  - 2 ^ 31 <= out_end - out_begin ->
  validate in_column = true ->
  validate (out_column w) = true ->
  dtype (out_column w) = dtype in_column ->
  dtype (out_column w) <> GDF_STRING_CATEGORY ->
  0 <= in_begin ->
  in_begin + (out_end - out_begin) <= size in_column ->
  wrap32 (out_end - out_begin) < 0
  /\ copy_range validate sync_column_categories detail_copy_range
                in_column out_begin out_end in_begin w =
     match detail_copy_range (out_column w)
                             (column_range_factory in_column in_begin)
                             out_begin out_end with
     | Completed c =>
         Returned tt {| out_column := c; temporaries := temporaries w |}
     | Aborted err c =>
         Thrown err {| out_column := c; temporaries := temporaries w |}
     end.
Proof.
  intros Hob Hoe Hib Hinv Hno Hvi Hvo Ht Hcat Hib0 Hsrc.
  assert (Hn : wrap32 (out_end - out_begin) = out_end - out_begin)
    by (apply wrap32_int32; unfold int32 in *; lia).
  split; [lia|].
  rewrite copy_range_checks, Hn.
  rewrite (proj2 (Z.eqb_neq _ 0)) by lia.
  rewrite Hvi, Hvo. cbn [negb].
  rewrite bool_decide_eq_true_2 by exact Ht. cbn [negb].
  rewrite wrap32_int32 by (unfold int32 in *; lia).
  rewrite (proj2 (Z.leb_le 0 in_begin)) by exact Hib0.
  rewrite (proj2 (Z.leb_le _ _)) by exact Hsrc. cbn [andb negb].
  rewrite bool_decide_eq_false_2 by exact Hcat. reflexivity.
Qed.

(** Both claims about a failing synchronisation come from one equation:
    the call throws with the destination as it was and with the two
    temporaries still held. *)
Lemma copy_range_sync_failure
      (detail_copy_range : gdf_column -> input_factory -> Z -> Z -> kernel_result)
      (in_column : gdf_column) (out_begin out_end in_begin : Z) (w : world) :
  wrap32 (out_end - out_begin) <> 0 ->
  validate in_column = true ->
  validate (out_column w) = true ->
  dtype (out_column w) = dtype in_column ->
  dtype (out_column w) = GDF_STRING_CATEGORY ->
  0 <= in_begin ->
  wrap32 (in_begin + wrap32 (out_end - out_begin)) <= size in_column ->
  status (sync_column_categories (out_column w, in_column)
                                 (out_column w, in_column)) <> GDF_SUCCESS ->
  copy_range validate sync_column_categories detail_copy_range
             in_column out_begin out_end in_begin w =
  Thrown ReconciliationError
         {| out_column := out_column w; temporaries := S (S (temporaries w)) |}.
Proof.
  intros Hn Hvi Hvo Ht Hcat Hib0 Hsrc Hfail.
  rewrite copy_range_checks.
  rewrite (proj2 (Z.eqb_neq _ 0)) by exact Hn.
  rewrite Hvi, Hvo. cbn [negb].
  rewrite bool_decide_eq_true_2 by exact Ht. cbn [negb].
  rewrite (proj2 (Z.leb_le 0 in_begin)) by exact Hib0.
  rewrite (proj2 (Z.leb_le _ _)) by exact Hsrc. cbn [andb negb].
  rewrite bool_decide_eq_true_2 by exact Hcat. cbn zeta.
  rewrite bool_decide_eq_false_2 by congruence. reflexivity.
Qed.

(** C4.  On two category-encoded columns that pass the checks, a
    synchronisation that does not report success makes [copy_range]
    throw [ReconciliationError] while the two temporaries made by
    [cudf::copy] are still held: the throw skips both
    [gdf_column_free] calls. *)
Theorem copy_range_sync_failure_keeps_temporaries
        (detail_copy_range : gdf_column -> input_factory -> Z -> Z -> kernel_result)
        (in_column : gdf_column) (out_begin out_end in_begin : Z) (w : world) :
  wrap32 (out_end - out_begin) <> 0 ->
  validate in_column = true ->
  validate (out_column w) = true ->
  dtype (out_column w) = dtype in_column ->
  dtype (out_column w) = GDF_STRING_CATEGORY ->
  0 <= in_begin ->
  wrap32 (in_begin + wrap32 (out_end - out_begin)) <= size in_column ->
  status (sync_column_categories (out_column w, in_column)
                                 (out_column w, in_column)) <> GDF_SUCCESS ->
  exists w',
    copy_range validate sync_column_categories detail_copy_range
               in_column out_begin out_end in_begin w
    = Thrown ReconciliationError w'
    /\ temporaries w' = (2 + temporaries w)%nat.
Proof.
  intros. eexists. split; [apply copy_range_sync_failure; assumption|].
  reflexivity.
Qed.

(** C5.  On two category-encoded columns that pass the checks, a
    synchronisation that does not report success makes [copy_range]
    throw [ReconciliationError] with the real destination exactly as it
    was before the call: data buffer, validity bitmap, null count and
    dictionary handle. *)
Theorem copy_range_sync_failure_keeps_destination
        (detail_copy_range : gdf_column -> input_factory -> Z -> Z -> kernel_result)
        (in_column : gdf_column) (out_begin out_end in_begin : Z) (w : world) :
  wrap32 (out_end - out_begin) <> 0 ->
  validate in_column = true ->
  validate (out_column w) = true ->
  dtype (out_column w) = dtype in_column ->
  dtype (out_column w) = GDF_STRING_CATEGORY ->
  0 <= in_begin ->
  wrap32 (in_begin + wrap32 (out_end - out_begin)) <= size in_column ->
  status (sync_column_categories (out_column w, in_column)
                                 (out_column w, in_column)) <> GDF_SUCCESS ->
  exists w',
    copy_range validate sync_column_categories detail_copy_range
               in_column out_begin out_end in_begin w
    = Thrown ReconciliationError w'
    /\ out_column w' = out_column w.
Proof.
  intros. eexists. split; [apply copy_range_sync_failure; assumption|].
  reflexivity.
Qed.

(** C6.  With the kernel path of the spec, whenever [copy_range] or
    [fill] throws ([ValidationError], [TypeMismatchError], [RangeError],
    and [ReconciliationError] as well) the destination column is the
    one the call was given: every check, the range check of the kernel
    path included, comes before the first write to it.  The source
    column is passed by const reference and is never written. *)
Theorem rejected_call_leaves_destination
        (in_column : gdf_column) (out_begin out_end in_begin : Z)
        (value : gdf_scalar) (b e : Z) (w : world) (err : error) (w' : world) :
  (copy_range validate sync_column_categories typed_range_copy_kernel
              in_column out_begin out_end in_begin w = Thrown err w' ->
   out_column w' = out_column w)
  /\ (fill validate typed_range_copy_kernel value b e w = Thrown err w' ->
      out_column w' = out_column w).
Proof.
  split.
  - rewrite copy_range_checks. cbn zeta. unfold on_out_column.
    repeat match goal with
           | |- context [if ?c then _ else _] => destruct c
           end;
      try (intros [= <- <-]; reflexivity); try discriminate.
    + destruct (typed_range_copy_kernel_cases
                  (with_codes (out_column w)
                     (out_codes (sync_column_categories (out_column w, in_column)
                                                        (out_column w, in_column)))
                     (out_category (sync_column_categories (out_column w, in_column)
                                                           (out_column w, in_column))))
                  (column_range_factory
                     (with_codes in_column
                        (in_codes (sync_column_categories (out_column w, in_column)
                                                          (out_column w, in_column)))
                        (in_category (sync_column_categories (out_column w, in_column)
                                                             (out_column w, in_column))))
                     in_begin) out_begin out_end)
        as [(c & -> & _) | ->]; [discriminate|].
      intros [= <- <-]. reflexivity.
    + destruct (typed_range_copy_kernel_cases
                  (out_column w) (column_range_factory in_column in_begin)
                  out_begin out_end) as [(c & -> & _) | ->]; [discriminate|].
      intros [= <- <-]. reflexivity.
  - rewrite fill_checks. unfold on_out_column.
    repeat match goal with
           | |- context [if ?c then _ else _] => destruct c
           end;
      try (intros [= <- <-]; reflexivity); try discriminate.
    destruct (typed_range_copy_kernel_cases
                (out_column w) (scalar_factory value) b e)
      as [(c & -> & _) | ->]; [discriminate|].
    intros [= <- <-]. reflexivity.
Qed.

(** C3, in the form the code satisfies.  With the kernel path of the
    spec, after every [copy_range] or [fill] that returns over a
    non-empty range, or on a column whose cache was right on entry, the
    destination's cached [null_count] is the number of unset bits among
    the first [size] bits of its bitmap, and [size] is unchanged.  A call
    over a non-empty range stores a freshly counted value whatever the
    cache held before; a zero-length call writes nothing and keeps a
    cache that was right on entry. *)
Theorem null_count_is_unset_bit_count
        (in_column : gdf_column) (out_begin out_end in_begin : Z)
        (value : gdf_scalar) (b e : Z) (w w' : world) :
  (int32 out_begin -> int32 out_end ->
   out_begin <> out_end \/ null_count_cached (out_column w) ->
   copy_range validate sync_column_categories typed_range_copy_kernel
              in_column out_begin out_end in_begin w = Returned tt w' ->
   null_count_cached (out_column w')
   /\ size (out_column w') = size (out_column w))
  /\ (b <> e \/ null_count_cached (out_column w) ->
      fill validate typed_range_copy_kernel value b e w = Returned tt w' ->
      null_count_cached (out_column w')
      /\ size (out_column w') = size (out_column w)).
Proof.
  split.
  - intros Hob Hoe Hor. rewrite copy_range_checks. cbn zeta.
    destruct (wrap32 (out_end - out_begin) =? 0) eqn:E0.
    { intros [= <-]. split; [|reflexivity].
      destruct Hor as [Hne|Hc]; [|exact Hc].
      exfalso. apply Hne. symmetry.
      apply wrap32_sub_eq0; [assumption..|]. apply Z.eqb_eq. exact E0. }
    unfold on_out_column.
    repeat match goal with
           | |- context [if ?c then _ else _] => destruct c
           end; try discriminate.
    + destruct (typed_range_copy_kernel_cases
                  (with_codes (out_column w)
                     (out_codes (sync_column_categories (out_column w, in_column)
                                                        (out_column w, in_column)))
                     (out_category (sync_column_categories (out_column w, in_column)
                                                           (out_column w, in_column))))
                  (column_range_factory
                     (with_codes in_column
                        (in_codes (sync_column_categories (out_column w, in_column)
                                                          (out_column w, in_column)))
                        (in_category (sync_column_categories (out_column w, in_column)
                                                             (out_column w, in_column))))
                     in_begin) out_begin out_end)
        as [(c & -> & Hs & _ & _ & Hc) | ->]; [|discriminate].
      intros [= <-]. cbn. split; [|reflexivity].
      unfold null_count_cached in *. cbn. rewrite Hc, Hs. reflexivity.
    + destruct (typed_range_copy_kernel_cases
                  (out_column w) (column_range_factory in_column in_begin)
                  out_begin out_end)
        as [(c & -> & Hs & _ & _ & Hc) | ->]; [|discriminate].
      intros [= <-]. cbn. split; assumption.
  - intros Hor. rewrite fill_checks.
    destruct (e =? b) eqn:E0.
    { intros [= <-]. split; [|reflexivity].
      destruct Hor as [Hne|Hc]; [|exact Hc].
      exfalso. apply Hne. symmetry. apply Z.eqb_eq. exact E0. }
    unfold on_out_column.
    repeat match goal with
           | |- context [if ?c then _ else _] => destruct c
           end; try discriminate.
    destruct (typed_range_copy_kernel_cases
                (out_column w) (scalar_factory value) b e)
      as [(c & -> & Hs & _ & _ & Hc) | ->]; [|discriminate].
    intros [= <-]. cbn. split; assumption.
Qed.

(** C1, in the form the code satisfies.  With the kernel path of the spec: for every pair of
    validated, laid-out columns of equal type tag and every valid range
    ([0 <= out_begin <= out_end <= destination.size], [0 <= in_begin],
    [in_begin + (out_end - out_begin) <= source.size]), [copy_range]
    returns, and for every [i] of [[0, out_end - out_begin)] the
    destination's validity bit at [out_begin + i] is the source's at
    [in_begin + i] and the destination's element at [out_begin + i] is
    the element [copy_range] reads for the source at [in_begin + i]:
    the source's own element when the tag is not the category tag, and
    for category-encoded columns the code that a successful
    synchronisation wrote for the source.  In particular destination
    [[0,0,0,0,0]] and source [[10,20,30,40,50]], all valid, with
    [copy_range(dest, src, 1, 4, 2)] give [[0,30,40,50,0]] and
    null count 0. *)
Theorem copy_range_copies_source_range
        (in_column : gdf_column) (out_begin out_end in_begin : Z) (w : world) :
  (validate in_column = true ->
   validate (out_column w) = true ->
   laid_out in_column = true ->
   laid_out (out_column w) = true ->
   dtype (out_column w) = dtype in_column ->
   0 <= out_begin -> out_begin <= out_end -> out_end <= size (out_column w) ->
   0 <= in_begin -> in_begin + (out_end - out_begin) <= size in_column ->
   (dtype (out_column w) = GDF_STRING_CATEGORY ->
    status (sync_column_categories (out_column w, in_column)
                                   (out_column w, in_column)) = GDF_SUCCESS
    /\ size (out_column w)
       <= Z.of_nat (length (out_codes (sync_column_categories
                                         (out_column w, in_column)
                                         (out_column w, in_column))))) ->
   exists w',
     copy_range validate sync_column_categories typed_range_copy_kernel
                in_column out_begin out_end in_begin w = Returned tt w'
     /\ forall i, 0 <= i < out_end - out_begin ->
          load (data (out_column w')) (out_begin + i)
          = load (source_elements sync_column_categories (out_column w) in_column)
                 (in_begin + i)
          /\ is_valid (valid (out_column w')) (out_begin + i)
             = is_valid (valid in_column) (in_begin + i))
  /\ (validate (Scenario.column GDF_INT32 [10; 20; 30; 40; 50] 31 0) = true ->
      validate (Scenario.column GDF_INT32 [0; 0; 0; 0; 0] 31 0) = true ->
      copy_range validate sync_column_categories typed_range_copy_kernel
                 (Scenario.column GDF_INT32 [10; 20; 30; 40; 50] 31 0) 1 4 2
                 (Scenario.start (Scenario.column GDF_INT32 [0; 0; 0; 0; 0] 31 0))
      = Returned tt
          (Scenario.start (Scenario.column GDF_INT32 [0; 30; 40; 50; 0] 31 0))).
Proof.
  split.
  - intros Hvi Hvo Hli Hlo Ht Hob Hoe Hsz Hib Hsrc Hcat.
    pose proof (laid_out_spec _ Hli) as (Hi0 & Hi31 & _ & _).
    pose proof (laid_out_spec _ Hlo) as (Ho0 & Ho31 & Hod & Hom).
    rewrite copy_range_checks.
    destruct (Z.eq_dec out_end out_begin) as [->|Hne].
    { rewrite wrap32_sub_diag. cbn. eexists. split; [reflexivity|]. intros; lia. }
    assert (Hn : wrap32 (out_end - out_begin) = out_end - out_begin)
      by (apply wrap32_int32; unfold int32; lia).
    rewrite Hn, (proj2 (Z.eqb_neq _ 0)) by lia.
    rewrite Hvi, Hvo. cbn [negb].
    rewrite bool_decide_eq_true_2 by exact Ht. cbn [negb].
    rewrite wrap32_int32 by (unfold int32; lia).
    rewrite (proj2 (Z.leb_le 0 in_begin)) by exact Hib.
    rewrite (proj2 (Z.leb_le _ _)) by exact Hsrc. cbn [andb negb].
    unfold source_elements.
    destruct (bool_decide (dtype (out_column w) = GDF_STRING_CATEGORY)) eqn:Ecat.
    + apply bool_decide_eq_true_1 in Ecat. destruct (Hcat Ecat) as [Hok Hcodes].
      cbn zeta. rewrite bool_decide_eq_true_2 by (symmetry; exact Hok). cbn [negb].
      set (s := sync_column_categories (out_column w, in_column)
                                       (out_column w, in_column)) in *.
      destruct (typed_range_copy_kernel_spec
                  (with_codes (out_column w) (out_codes s) (out_category s))
                  (column_range_factory
                     (with_codes in_column (in_codes s) (in_category s)) in_begin)
                  out_begin out_end)
        as (c & -> & _ & _ & _ & _ & Hall); try assumption.
      { unfold laid_out, with_codes. cbn.
        rewrite !andb_true_iff, !Z.leb_le, Z.ltb_lt. lia. }
      eexists. split; [reflexivity|]. intros i Hi. cbn.
      destruct (Hall (out_begin + i)) as [Hd Hb]; [lia|].
      rewrite Hd, Hb, !decide_True by lia. cbn.
      replace (out_begin + i - out_begin) with i by lia.
      rewrite wrap32_int32 by (unfold int32; lia). split; reflexivity.
    + destruct (typed_range_copy_kernel_spec
                  (out_column w) (column_range_factory in_column in_begin)
                  out_begin out_end)
        as (c & Hk & _ & _ & _ & _ & Hall); try assumption.
      unfold on_out_column. rewrite Hk.
      eexists. split; [reflexivity|]. intros i Hi. cbn.
      destruct (Hall (out_begin + i)) as [Hd Hb]; [lia|].
      rewrite Hd, Hb, !decide_True by lia. cbn.
      replace (out_begin + i - out_begin) with i by lia.
      rewrite wrap32_int32 by (unfold int32; lia). split; reflexivity.
  - intros Hs Hd. rewrite copy_range_checks.
    cbn [Scenario.start out_column]. rewrite Hs, Hd. reflexivity.
Qed.

(** C2.  With the kernel path of the spec: for every validated,
    laid-out column, every scalar of the column's type tag and every
    valid range ([0 <= begin <= end <= column.size]), [fill] returns,
    and every index of [[begin, end)] holds the scalar's value in the
    data buffer and has its validity bit equal to the scalar's validity
    flag.  In particular a 4-element all-valid integer column filled
    with scalar [{value = 7, valid = false}] over [[1, 3)] keeps its
    elements 0 and 3, holds 7 at 1 and 2, has exactly the indices 1 and
    2 invalid and null count 2. *)
Theorem fill_writes_scalar_over_range
        (value : gdf_scalar) (b e : Z) (w : world) (x0 x1 x2 x3 : Z) :
  (validate (out_column w) = true ->
   laid_out (out_column w) = true ->
   dtype (out_column w) = scalar_dtype value ->
   0 <= b -> b <= e -> e <= size (out_column w) ->
   exists w',
     fill validate typed_range_copy_kernel value b e w = Returned tt w'
     /\ forall i, b <= i < e ->
          load (data (out_column w')) i = scalar_value value
          /\ is_valid (valid (out_column w')) i = scalar_is_valid value)
  /\ (validate (Scenario.column GDF_INT32 [x0; x1; x2; x3] 15 0) = true ->
      fill validate typed_range_copy_kernel
           {| scalar_data := 7; scalar_dtype := GDF_INT32; scalar_is_valid := false |}
           1 3 (Scenario.start (Scenario.column GDF_INT32 [x0; x1; x2; x3] 15 0))
      = Returned tt
          (Scenario.start (Scenario.column GDF_INT32 [x0; 7; 7; x3] 9 2))).
Proof.
  split.
  - intros Hv Hl Ht Hb Hbe He.
    rewrite fill_checks.
    destruct (Z.eq_dec e b) as [->|Hne].
    { rewrite Z.eqb_refl. eexists. split; [reflexivity|]. intros; lia. }
    rewrite (proj2 (Z.eqb_neq e b)) by exact Hne.
    rewrite Hv, bool_decide_eq_true_2 by exact Ht. cbn [negb].
    destruct (typed_range_copy_kernel_spec
                (out_column w) (scalar_factory value) b e)
      as (c & Hk & _ & _ & _ & _ & Hall); try assumption.
    unfold on_out_column. rewrite Hk.
    eexists. split; [reflexivity|]. intros i Hi. cbn.
    destruct (Hall i) as [Hd Hbit]; [lia|].
    rewrite Hd, Hbit, !decide_True by lia. cbn.
    unfold scalar_value. rewrite Ht. split; reflexivity.
  - intros Hv. rewrite fill_checks.
    cbn [Scenario.start out_column]. rewrite Hv. reflexivity.
Qed.

End Claims.

(** C8.  [rmmAlloc]: with a slot and size 0 it writes a null pointer into
    the slot and returns success; with a null slot pointer and size 0 it
    allocates nothing, writes nothing and returns success; with a null
    slot pointer and a non-zero size it returns
    [RMM_ERROR_INVALID_ARGUMENT]; when the device allocation fails for
    lack of memory it returns [RMM_ERROR_OUT_OF_MEMORY], and for any other
    device failure [RMM_ERROR_CUDA_ERROR], a different value. *)
Theorem rmmAlloc_contract
        (cudaMalloc : Rmm.void_ptr -> Z -> Rmm.cudaError_t * Rmm.void_ptr)
        (p : Rmm.void_ptr) (size_ stream_ : Z) (log : Rmm.Logger) :
  (Rmm.returned (Rmm.rmmAlloc cudaMalloc (Some p) 0 stream_ log) = Rmm.RMM_SUCCESS
   /\ Rmm.slot (Rmm.rmmAlloc cudaMalloc (Some p) 0 stream_ log) = Some Rmm.NULL)
  /\ (Rmm.returned (Rmm.rmmAlloc cudaMalloc None 0 stream_ log) = Rmm.RMM_SUCCESS
      /\ Rmm.slot (Rmm.rmmAlloc cudaMalloc None 0 stream_ log) = None)
  /\ (size_ <> 0 ->
      Rmm.returned (Rmm.rmmAlloc cudaMalloc None size_ stream_ log)
      = Rmm.RMM_ERROR_INVALID_ARGUMENT)
  /\ (size_ <> 0 ->
      fst (cudaMalloc p size_) = Rmm.cudaErrorMemoryAllocation ->
      Rmm.returned (Rmm.rmmAlloc cudaMalloc (Some p) size_ stream_ log)
      = Rmm.RMM_ERROR_OUT_OF_MEMORY)
  /\ (size_ <> 0 ->
      fst (cudaMalloc p size_) <> Rmm.cudaErrorMemoryAllocation ->
      fst (cudaMalloc p size_) <> Rmm.cudaSuccess ->
      Rmm.returned (Rmm.rmmAlloc cudaMalloc (Some p) size_ stream_ log)
      = Rmm.RMM_ERROR_CUDA_ERROR)
  /\ Rmm.RMM_ERROR_OUT_OF_MEMORY <> Rmm.RMM_ERROR_CUDA_ERROR.
Proof.
  unfold Rmm.rmmAlloc.
  repeat split; try reflexivity; try discriminate.
  - intros Hsz. rewrite (proj2 (Z.eqb_neq size_ 0)) by exact Hsz. reflexivity.
  - intros Hsz Hoom. rewrite (proj2 (Z.eqb_neq size_ 0)) by exact Hsz. cbn.
    destruct (cudaMalloc p size_) as [err q]. cbn in Hoom. subst err. reflexivity.
  - intros Hsz Hoom Hok. rewrite (proj2 (Z.eqb_neq size_ 0)) by exact Hsz. cbn.
    destruct (cudaMalloc p size_) as [err q]. cbn in Hoom, Hok.
    unfold Rmm.RMM_CHECK_CUDA.
    rewrite (proj2 (Z.eqb_neq err _)) by exact Hoom.
    rewrite (proj2 (Z.eqb_neq err _)) by exact Hok. reflexivity.
Qed.

(* ===================================================================== *)
(** ** The claims at concrete inputs *)
(* ===================================================================== *)

(** C1 as first stated fails on category-encoded columns: there the
    destination receives the codes that the synchronisation wrote for the
    source, not the source's own.  Destination codes [[0,0,0,0,0]], source
    codes [[0,1,2,3,4]], all valid, equal tags, range [1, 4) from 2, and a
    synchronisation that moves every source code up by one: the call
    returns and the destination holds 3 at index 1, the source 2 at
    index 2. *)
Lemma copy_range_category_codes_differ :
  Scenario.validate (Scenario.column GDF_STRING_CATEGORY [0; 0; 0; 0; 0] 31 0) = true
  /\ Scenario.validate (Scenario.column GDF_STRING_CATEGORY [0; 1; 2; 3; 4] 31 0) = true
  /\ copy_range Scenario.validate Scenario.sync_shift typed_range_copy_kernel
                (Scenario.column GDF_STRING_CATEGORY [0; 1; 2; 3; 4] 31 0) 1 4 2
                (Scenario.start (Scenario.column GDF_STRING_CATEGORY [0; 0; 0; 0; 0] 31 0))
     = Returned tt
         {| out_column :=
              {| data := [0; 3; 4; 5; 0]; valid := [31]; size := 5;
                 dtype := GDF_STRING_CATEGORY; null_count := 0;
                 dtype_info := {| category := 1 |} |};
            temporaries := 0 |}
  /\ load [0; 3; 4; 5; 0] (1 + 0) <> load [0; 1; 2; 3; 4] (2 + 0).
Proof.
  split; [reflexivity|]. split; [reflexivity|]. split; [reflexivity|].
  vm_compute. discriminate.
Qed.

(** C1 at category columns whose synchronisation succeeds, and at the
    integer scenario. *)
Lemma copy_range_copies_source_range_witness :
  (exists w',
     copy_range Scenario.validate Scenario.sync_shift typed_range_copy_kernel
                (Scenario.column GDF_STRING_CATEGORY [0; 1; 2; 3; 4] 29 1) 1 4 2
                (Scenario.start (Scenario.column GDF_STRING_CATEGORY [0; 0; 0; 0; 0] 31 0))
     = Returned tt w'
     /\ forall i, 0 <= i < 4 - 1 ->
          load (data (out_column w')) (1 + i)
          = load (source_elements
                    Scenario.sync_shift
                    (Scenario.column GDF_STRING_CATEGORY [0; 0; 0; 0; 0] 31 0)
                    (Scenario.column GDF_STRING_CATEGORY [0; 1; 2; 3; 4] 29 1))
                 (2 + i)
          /\ is_valid (valid (out_column w')) (1 + i)
             = is_valid (valid (Scenario.column GDF_STRING_CATEGORY [0; 1; 2; 3; 4] 29 1))
                        (2 + i))
  /\ copy_range Scenario.validate Scenario.sync_shift typed_range_copy_kernel
                (Scenario.column GDF_INT32 [10; 20; 30; 40; 50] 31 0) 1 4 2
                (Scenario.start (Scenario.column GDF_INT32 [0; 0; 0; 0; 0] 31 0))
     = Returned tt (Scenario.start (Scenario.column GDF_INT32 [0; 30; 40; 50; 0] 31 0)).
Proof.
  split.
  - apply (proj1 (copy_range_copies_source_range
                    Scenario.validate Scenario.sync_shift
                    (Scenario.column GDF_STRING_CATEGORY [0; 1; 2; 3; 4] 29 1) 1 4 2
                    (Scenario.start
                       (Scenario.column GDF_STRING_CATEGORY [0; 0; 0; 0; 0] 31 0))));
      try reflexivity; try (vm_compute; discriminate).
    intros _. split; [reflexivity | vm_compute; discriminate].
  - apply (proj2 (copy_range_copies_source_range
                    Scenario.validate Scenario.sync_shift
                    (Scenario.column GDF_INT32 [10; 20; 30; 40; 50] 31 0) 1 4 2
                    (Scenario.start (Scenario.column GDF_INT32 [0; 0; 0; 0; 0] 31 0))));
      reflexivity.
Defined.

(** C2 at the scenario: column [[1,2,3,4]], scalar 7, invalid, over
    [[1, 3)]. *)
Lemma fill_writes_scalar_over_range_witness :
  (exists w',
     fill Scenario.validate typed_range_copy_kernel
          {| scalar_data := 7; scalar_dtype := GDF_INT32; scalar_is_valid := false |}
          1 3 (Scenario.start (Scenario.column GDF_INT32 [1; 2; 3; 4] 15 0))
     = Returned tt w'
     /\ forall i, 1 <= i < 3 ->
          load (data (out_column w')) i
          = scalar_value {| scalar_data := 7; scalar_dtype := GDF_INT32;
                            scalar_is_valid := false |}
          /\ is_valid (valid (out_column w')) i = false)
  /\ fill Scenario.validate typed_range_copy_kernel
          {| scalar_data := 7; scalar_dtype := GDF_INT32; scalar_is_valid := false |}
          1 3 (Scenario.start (Scenario.column GDF_INT32 [1; 2; 3; 4] 15 0))
     = Returned tt (Scenario.start (Scenario.column GDF_INT32 [1; 7; 7; 4] 9 2)).
Proof.
  split.
  - apply (proj1 (fill_writes_scalar_over_range
                    Scenario.validate
                    {| scalar_data := 7; scalar_dtype := GDF_INT32;
                       scalar_is_valid := false |}
                    1 3 (Scenario.start (Scenario.column GDF_INT32 [1; 2; 3; 4] 15 0))
                    1 2 3 4));
      try reflexivity; vm_compute; discriminate.
  - apply (proj2 (fill_writes_scalar_over_range
                    Scenario.validate
                    {| scalar_data := 7; scalar_dtype := GDF_INT32;
                       scalar_is_valid := false |}
                    1 3 (Scenario.start (Scenario.column GDF_INT32 [1; 2; 3; 4] 15 0))
                    1 2 3 4)).
    reflexivity.
Defined.

(** C3 as first stated fails for zero-length calls: they return without
    writing anything, so a cache that was wrong stays wrong.  A column of
    4 elements, all valid, whose [null_count] says 3: [fill] over
    [[2, 2)] and [copy_range] over [[2, 2)] both return with the column
    as it was, [null_count] 3 against no unset bit. *)
Lemma zero_length_call_keeps_stale_null_count :
  fill Scenario.validate typed_range_copy_kernel
       {| scalar_data := 7; scalar_dtype := GDF_INT32; scalar_is_valid := true |}
       2 2 (Scenario.start (Scenario.column GDF_INT32 [1; 2; 3; 4] 15 3))
  = Returned tt (Scenario.start (Scenario.column GDF_INT32 [1; 2; 3; 4] 15 3))
  /\ copy_range Scenario.validate Scenario.sync_same typed_range_copy_kernel
                (Scenario.column GDF_INT32 [10; 20; 30; 40; 50] 31 0) 2 2 0
                (Scenario.start (Scenario.column GDF_INT32 [1; 2; 3; 4] 15 3))
     = Returned tt (Scenario.start (Scenario.column GDF_INT32 [1; 2; 3; 4] 15 3))
  /\ null_count (Scenario.column GDF_INT32 [1; 2; 3; 4] 15 3) = 3
  /\ count_unset_bits (valid (Scenario.column GDF_INT32 [1; 2; 3; 4] 15 3))
                       (size (Scenario.column GDF_INT32 [1; 2; 3; 4] 15 3)) = 0
  /\ ~ null_count_cached (Scenario.column GDF_INT32 [1; 2; 3; 4] 15 3).
Proof.
  repeat split. vm_compute. discriminate.
Qed.

(** C3 after a copy into a column whose cache was wrong (7 for no null)
    and after the fill of the scenario. *)
Lemma null_count_is_unset_bit_count_witness :
  (copy_range Scenario.validate Scenario.sync_same typed_range_copy_kernel
              (Scenario.column GDF_INT32 [10; 20; 30; 40; 50] 31 0) 1 4 2
              (Scenario.start (Scenario.column GDF_INT32 [0; 0; 0; 0; 0] 31 7))
   = Returned tt (Scenario.start (Scenario.column GDF_INT32 [0; 30; 40; 50; 0] 31 0))
   /\ null_count_cached (Scenario.column GDF_INT32 [0; 30; 40; 50; 0] 31 0)
   /\ size (Scenario.column GDF_INT32 [0; 30; 40; 50; 0] 31 0)
      = size (Scenario.column GDF_INT32 [0; 0; 0; 0; 0] 31 7))
  /\ (fill Scenario.validate typed_range_copy_kernel
           {| scalar_data := 7; scalar_dtype := GDF_INT32; scalar_is_valid := false |}
           1 3 (Scenario.start (Scenario.column GDF_INT32 [1; 2; 3; 4] 15 0))
      = Returned tt (Scenario.start (Scenario.column GDF_INT32 [1; 7; 7; 4] 9 2))
      /\ null_count_cached (Scenario.column GDF_INT32 [1; 7; 7; 4] 9 2)
      /\ size (Scenario.column GDF_INT32 [1; 7; 7; 4] 9 2)
         = size (Scenario.column GDF_INT32 [1; 2; 3; 4] 15 0)).
Proof.
  pose proof (null_count_is_unset_bit_count
                Scenario.validate Scenario.sync_same
                (Scenario.column GDF_INT32 [10; 20; 30; 40; 50] 31 0) 1 4 2
                {| scalar_data := 7; scalar_dtype := GDF_INT32; scalar_is_valid := false |}
                1 3
                (Scenario.start (Scenario.column GDF_INT32 [0; 0; 0; 0; 0] 31 7))
                (Scenario.start (Scenario.column GDF_INT32 [0; 30; 40; 50; 0] 31 0)))
    as [Hcopy _].
  pose proof (null_count_is_unset_bit_count
                Scenario.validate Scenario.sync_same
                (Scenario.column GDF_INT32 [10; 20; 30; 40; 50] 31 0) 1 4 2
                {| scalar_data := 7; scalar_dtype := GDF_INT32; scalar_is_valid := false |}
                1 3
                (Scenario.start (Scenario.column GDF_INT32 [1; 2; 3; 4] 15 0))
                (Scenario.start (Scenario.column GDF_INT32 [1; 7; 7; 4] 9 2)))
    as [_ Hfill].
  split; (split; [reflexivity|]).
  - apply Hcopy; [unfold int32; lia ..| | reflexivity].
    left. discriminate.
  - apply Hfill; [|reflexivity]. left. discriminate.
Defined.

(** C6 at a copy whose destination range [[4, 7)] leaves a column of 5
    elements and at a fill with a 64-bit scalar for a 32-bit column. *)
Lemma rejected_call_leaves_destination_witness :
  (copy_range Scenario.validate Scenario.sync_same typed_range_copy_kernel
              (Scenario.column GDF_INT32 [10; 20; 30; 40; 50] 31 0) 4 7 0
              (Scenario.start (Scenario.column GDF_INT32 [0; 0; 0; 0; 0] 31 0))
   = Thrown RangeError
            (Scenario.start (Scenario.column GDF_INT32 [0; 0; 0; 0; 0] 31 0))
   /\ out_column (Scenario.start (Scenario.column GDF_INT32 [0; 0; 0; 0; 0] 31 0))
      = out_column (Scenario.start (Scenario.column GDF_INT32 [0; 0; 0; 0; 0] 31 0)))
  /\ (fill Scenario.validate typed_range_copy_kernel
           {| scalar_data := 7; scalar_dtype := GDF_INT64; scalar_is_valid := true |}
           1 3 (Scenario.start (Scenario.column GDF_INT32 [1; 2; 3; 4] 15 0))
      = Thrown TypeMismatchError
               (Scenario.start (Scenario.column GDF_INT32 [1; 2; 3; 4] 15 0))
      /\ out_column (Scenario.start (Scenario.column GDF_INT32 [1; 2; 3; 4] 15 0))
         = out_column (Scenario.start (Scenario.column GDF_INT32 [1; 2; 3; 4] 15 0))).
Proof.
  split; (split; [reflexivity|]).
  - apply (proj1 (rejected_call_leaves_destination
                    Scenario.validate Scenario.sync_same
                    (Scenario.column GDF_INT32 [10; 20; 30; 40; 50] 31 0) 4 7 0
                    {| scalar_data := 7; scalar_dtype := GDF_INT64;
                       scalar_is_valid := true |} 1 3
                    (Scenario.start (Scenario.column GDF_INT32 [0; 0; 0; 0; 0] 31 0))
                    RangeError
                    (Scenario.start (Scenario.column GDF_INT32 [0; 0; 0; 0; 0] 31 0)))).
    reflexivity.
  - apply (proj2 (rejected_call_leaves_destination
                    Scenario.validate Scenario.sync_same
                    (Scenario.column GDF_INT32 [10; 20; 30; 40; 50] 31 0) 4 7 0
                    {| scalar_data := 7; scalar_dtype := GDF_INT64;
                       scalar_is_valid := true |} 1 3
                    (Scenario.start (Scenario.column GDF_INT32 [1; 2; 3; 4] 15 0))
                    TypeMismatchError
                    (Scenario.start (Scenario.column GDF_INT32 [1; 2; 3; 4] 15 0)))).
    reflexivity.
Defined.

(** C4 at two category columns and a failing synchronisation. *)
Lemma copy_range_sync_failure_keeps_temporaries_witness :
  exists w',
    copy_range Scenario.validate Scenario.sync_fail typed_range_copy_kernel
               (Scenario.column GDF_STRING_CATEGORY [0; 1; 2; 3; 4] 31 0) 1 4 2
               (Scenario.start (Scenario.column GDF_STRING_CATEGORY [0; 0; 0; 0; 0] 31 0))
    = Thrown ReconciliationError w'
    /\ temporaries w'
       = Nat.add 2 (temporaries
                      (Scenario.start
                         (Scenario.column GDF_STRING_CATEGORY [0; 0; 0; 0; 0] 31 0))).
Proof.
  apply (copy_range_sync_failure_keeps_temporaries
           Scenario.validate Scenario.sync_fail typed_range_copy_kernel
           (Scenario.column GDF_STRING_CATEGORY [0; 1; 2; 3; 4] 31 0) 1 4 2
           (Scenario.start (Scenario.column GDF_STRING_CATEGORY [0; 0; 0; 0; 0] 31 0)));
    try reflexivity; try (vm_compute; discriminate); discriminate.
Defined.

(** C5 at two category columns and a failing synchronisation. *)
Lemma copy_range_sync_failure_keeps_destination_witness :
  exists w',
    copy_range Scenario.validate Scenario.sync_fail typed_range_copy_kernel
               (Scenario.column GDF_STRING_CATEGORY [0; 1; 2; 3; 4] 31 0) 1 4 2
               (Scenario.start (Scenario.column GDF_STRING_CATEGORY [0; 0; 0; 0; 0] 31 0))
    = Thrown ReconciliationError w'
    /\ out_column w'
       = out_column
           (Scenario.start (Scenario.column GDF_STRING_CATEGORY [0; 0; 0; 0; 0] 31 0)).
Proof.
  apply (copy_range_sync_failure_keeps_destination
           Scenario.validate Scenario.sync_fail typed_range_copy_kernel
           (Scenario.column GDF_STRING_CATEGORY [0; 1; 2; 3; 4] 31 0) 1 4 2
           (Scenario.start (Scenario.column GDF_STRING_CATEGORY [0; 0; 0; 0; 0] 31 0)));
    try reflexivity; try (vm_compute; discriminate); discriminate.
Defined.


(** C10 at [out_begin = 4], [out_end = 1], [in_begin = 0], with a kernel
    path that leaves the range it was given in the column: the call
    returns with the column that kernel wrote, [[4, 1]]. *)
Lemma copy_range_inverted_range_reaches_kernel_witness :
  wrap32 (1 - 4) < 0
  /\ copy_range Scenario.validate Scenario.sync_same Scenario.kernel_probe
                (Scenario.column GDF_INT32 [10; 20; 30; 40; 50] 31 0) 4 1 0
                (Scenario.start (Scenario.column GDF_INT32 [0; 0; 0; 0; 0] 31 0))
     = Returned tt
         {| out_column :=
              {| data := [4; 1]; valid := [31]; size := 5; dtype := GDF_INT32;
                 null_count := 0; dtype_info := {| category := 0 |} |};
            temporaries := 0 |}.
Proof.
  apply (copy_range_inverted_range_reaches_kernel
           Scenario.validate Scenario.sync_same Scenario.kernel_probe
           (Scenario.column GDF_INT32 [10; 20; 30; 40; 50] 31 0) 4 1 0
           (Scenario.start (Scenario.column GDF_INT32 [0; 0; 0; 0; 0] 31 0)));
    try reflexivity; try (unfold int32; lia); try (vm_compute; discriminate);
    discriminate.
Defined.

(** C8 at a request of 64 bytes: null slot pointer, device out of
    memory, device failing otherwise. *)
Lemma rmmAlloc_contract_witness :
  Rmm.returned (Rmm.rmmAlloc Scenario.cudaMalloc_no_memory None 64 0 [])
  = Rmm.RMM_ERROR_INVALID_ARGUMENT
  /\ Rmm.returned (Rmm.rmmAlloc Scenario.cudaMalloc_no_memory (Some 16) 64 0 [])
     = Rmm.RMM_ERROR_OUT_OF_MEMORY
  /\ Rmm.returned (Rmm.rmmAlloc Scenario.cudaMalloc_broken (Some 16) 64 0 [])
     = Rmm.RMM_ERROR_CUDA_ERROR.
Proof.
  destruct (rmmAlloc_contract Scenario.cudaMalloc_no_memory 16 64 0 [])
    as (_ & _ & Hnull & Hoom & _ & _).
  destruct (rmmAlloc_contract Scenario.cudaMalloc_broken 16 64 0 [])
    as (_ & _ & _ & _ & Hdev & _).
  split; [apply Hnull; discriminate|].
  split; [apply Hoom; [discriminate | reflexivity]|].
  apply Hdev; discriminate.
Defined.

(* ===================================================================== *)
(** ** Further properties of the memory manager *)
(* ===================================================================== *)

Module RmmFacts.

Import Rmm.

(** [RMM_CHECK_CUDA] lets the enclosing function go on exactly when the
    runtime reported [cudaSuccess]; otherwise it returns one of two
    errors. *)
Lemma RMM_CHECK_CUDA_cases (e : cudaError_t) :
  (e = cudaSuccess /\ RMM_CHECK_CUDA e = None)
  \/ (e = cudaErrorMemoryAllocation /\ RMM_CHECK_CUDA e = Some RMM_ERROR_OUT_OF_MEMORY)
  \/ (e <> cudaSuccess /\ e <> cudaErrorMemoryAllocation
      /\ RMM_CHECK_CUDA e = Some RMM_ERROR_CUDA_ERROR).
Proof.
  unfold RMM_CHECK_CUDA, cudaSuccess, cudaErrorMemoryAllocation.
  destruct (Z.eqb_spec e 2) as [->|H2]; [right; left; split; reflexivity|].
  destruct (Z.eqb_spec e 0) as [->|H0]; [left; split; reflexivity|].
  right; right. repeat split; assumption.
Qed.

(** X1.  [rmmAlloc] returns [RMM_SUCCESS] exactly when the size is zero,
    or the slot pointer is not null and [cudaMalloc] reported
    [cudaSuccess]. *)
Theorem rmmAlloc_succeeds_iff
        (cudaMalloc : void_ptr -> Z -> cudaError_t * void_ptr)
        (ptr_ : option void_ptr) (size_ stream_ : Z) (log : Logger) :
  returned (rmmAlloc cudaMalloc ptr_ size_ stream_ log) = RMM_SUCCESS
  <-> size_ = 0
      \/ exists old, ptr_ = Some old /\ fst (cudaMalloc old size_) = cudaSuccess.
Proof.
  unfold rmmAlloc.
  destruct (Z.eqb_spec size_ 0) as [->|Hsz].
  - destruct ptr_; cbn; split; auto.
  - rewrite andb_false_r.
    destruct ptr_ as [old|]; cbn.
    + destruct (cudaMalloc old size_) as [err p] eqn:Hm.
      destruct (RMM_CHECK_CUDA_cases err) as [[-> ->] | [[-> ->] | (H0 & H2 & ->)]]; cbn.
      * split; [|reflexivity]. intros _. right. exists old. rewrite Hm. auto.
      * split; [discriminate|].
        intros [?|(old' & [= <-] & Hok)]; [contradiction|].
        rewrite Hm in Hok. discriminate.
      * split; [discriminate|].
        intros [?|(old' & [= <-] & Hok)]; [contradiction|].
        rewrite Hm in Hok. contradiction.
    + split; [discriminate|].
      intros [?|(old' & [=] & _)]. contradiction.
Qed.

(** X2.  Every call of [rmmAlloc] appends exactly one [Alloc] event to the
    log, on every exit, with the size and the stream of the call; the
    event carries the pointer written into the slot when a block was
    allocated, and 0 otherwise (failed calls and zero-size calls). *)
Theorem rmmAlloc_logs_every_call
        (cudaMalloc : void_ptr -> Z -> cudaError_t * void_ptr)
        (ptr_ : option void_ptr) (size_ stream_ : Z) (log : Logger) :
  theLog (rmmAlloc cudaMalloc ptr_ size_ stream_ log)
  = log ++ [ {| event := Alloc;
                ptr := if bool_decide (returned (rmmAlloc cudaMalloc ptr_ size_ stream_ log)
                                       = RMM_SUCCESS)
                          && negb (size_ =? 0)
                       then default NULL (slot (rmmAlloc cudaMalloc ptr_ size_ stream_ log))
                       else NULL;
                size := size_; stream := stream_ |} ].
Proof.
  unfold rmmAlloc, record.
  destruct (Z.eqb_spec size_ 0) as [->|Hsz].
  - destruct ptr_; cbn; rewrite andb_false_r; reflexivity.
  - rewrite andb_false_r.
    destruct ptr_ as [old|]; cbn; [|reflexivity].
    destruct (cudaMalloc old size_) as [err p].
    destruct (RMM_CHECK_CUDA_cases err) as [[-> ->] | [[-> ->] | (H0 & H2 & ->)]];
      reflexivity.
Qed.

Section Runtime.

Variable cudaFree : void_ptr -> cudaError_t.
Variable cudaMalloc : void_ptr -> Z -> cudaError_t * void_ptr.
Variable cudaMemGetInfo : cudaError_t * (Z * Z).
Variable to_csv : Logger -> list ascii.

(** X3.  [rmmRealloc] returns [RMM_SUCCESS] exactly when the slot pointer
    is null and the new size zero, or the slot pointer is not null and
    both [cudaFree] of the old block and [cudaMalloc] of the new one
    reported [cudaSuccess].  A zero new size with a slot is no special
    case. *)
Theorem rmmRealloc_succeeds_iff
        (ptr_ : option slot_ref) (new_size stream_ : Z) (log : Logger) :
  returned (fst (rmmRealloc cudaFree cudaMalloc ptr_ new_size stream_ log)) = RMM_SUCCESS
  <-> (ptr_ = None /\ new_size = 0)
      \/ exists r, ptr_ = Some r
                   /\ cudaFree (holds r) = cudaSuccess
                   /\ fst (cudaMalloc (holds r) new_size) = cudaSuccess.
Proof.
  unfold rmmRealloc.
  destruct ptr_ as [r|]; cbn.
  - destruct (RMM_CHECK_CUDA_cases (cudaFree (holds r)))
      as [[Hf ->] | [[Hf ->] | (H0 & H2 & ->)]]; cbn.
    + destruct (cudaMalloc (holds r) new_size) as [err p] eqn:Hm.
      destruct (RMM_CHECK_CUDA_cases err) as [[-> ->] | [[-> ->] | (H0 & H2 & ->)]]; cbn.
      * split; [|reflexivity]. intros _. right. exists r. rewrite Hm. auto.
      * split; [discriminate|].
        intros [[[=] _]|(r' & [= <-] & _ & Hok)]. rewrite Hm in Hok. discriminate.
      * split; [discriminate|].
        intros [[[=] _]|(r' & [= <-] & _ & Hok)]. rewrite Hm in Hok. contradiction.
    + split; [discriminate|].
      intros [[[=] _]|(r' & [= <-] & Hok & _)]. rewrite Hf in Hok. discriminate.
    + split; [discriminate|].
      intros [[[=] _]|(r' & [= <-] & Hok & _)]. contradiction.
  - destruct (Z.eqb_spec new_size 0) as [->|Hsz]; cbn.
    + split; auto.
    + split; [discriminate|].
      intros [[_ ?]|(r & [=] & _)]. contradiction.
Qed.

(** X4.  The calls [rmmRealloc] makes to the CUDA runtime: first
    [cudaGetDevice], by the constructor of [LogIt], on every call; then,
    on a slot, the release of the old block, whatever the new size, and
    the request for the new block only when that release succeeded.
    With a null slot pointer [cudaGetDevice] is the only call. *)
Theorem rmmRealloc_runtime_calls
        (ptr_ : option slot_ref) (new_size stream_ : Z) (log : Logger) :
  snd (rmmRealloc cudaFree cudaMalloc ptr_ new_size stream_ log)
  = call_cudaGetDevice
    :: match ptr_ with
       | None => []
       | Some r =>
           if cudaFree (holds r) =? cudaSuccess
           then [call_cudaFree (holds r); call_cudaMalloc new_size]
           else [call_cudaFree (holds r)]
       end.
Proof.
  unfold rmmRealloc.
  destruct ptr_ as [r|]; cbn.
  - destruct (RMM_CHECK_CUDA_cases (cudaFree (holds r)))
      as [[Hf ->] | [[Hf ->] | (H0 & H2 & ->)]]; cbn.
    + rewrite Hf. cbn.
      destruct (cudaMalloc (holds r) new_size) as [err p].
      destruct (RMM_CHECK_CUDA err); reflexivity.
    + rewrite Hf. reflexivity.
    + rewrite (proj2 (Z.eqb_neq _ _)) by exact H0. reflexivity.
  - destruct (new_size =? 0); reflexivity.
Qed.

(** X5.  When the release of the old block fails, [rmmRealloc] returns the
    error of that failure and leaves the slot holding the old pointer;
    the outcome does not depend on what [cudaMalloc] would have
    answered. *)
Theorem rmmRealloc_failed_release_keeps_slot
        (cudaMalloc' : void_ptr -> Z -> cudaError_t * void_ptr)
        (r : slot_ref) (new_size stream_ : Z) (log : Logger) :
  cudaFree (holds r) <> cudaSuccess ->
  returned (fst (rmmRealloc cudaFree cudaMalloc (Some r) new_size stream_ log))
  = (if cudaFree (holds r) =? cudaErrorMemoryAllocation
     then RMM_ERROR_OUT_OF_MEMORY else RMM_ERROR_CUDA_ERROR)
  /\ slot (fst (rmmRealloc cudaFree cudaMalloc (Some r) new_size stream_ log))
     = Some (holds r)
  /\ rmmRealloc cudaFree cudaMalloc (Some r) new_size stream_ log
     = rmmRealloc cudaFree cudaMalloc' (Some r) new_size stream_ log.
Proof.
  intros Hfail. unfold rmmRealloc. cbn.
  destruct (RMM_CHECK_CUDA_cases (cudaFree (holds r)))
    as [[Hf _] | [[Hf ->] | (H0 & H2 & ->)]]; [contradiction| |]; cbn.
  - rewrite Hf. repeat split.
  - rewrite (proj2 (Z.eqb_neq _ _)) by exact H2. repeat split.
Qed.

(** X6.  When the old block was released and the allocation of the new one
    fails, [rmmRealloc] returns an error although the old block is gone:
    the calls made to the runtime are [cudaGetDevice] (by the
    constructor of [LogIt]), the release and the failed allocation, and
    the slot holds what [cudaMalloc] left there. *)
Theorem rmmRealloc_failed_allocation_loses_block
        (r : slot_ref) (new_size stream_ : Z) (log : Logger) :
  cudaFree (holds r) = cudaSuccess ->
  fst (cudaMalloc (holds r) new_size) <> cudaSuccess ->
  returned (fst (rmmRealloc cudaFree cudaMalloc (Some r) new_size stream_ log))
  <> RMM_SUCCESS
  /\ snd (rmmRealloc cudaFree cudaMalloc (Some r) new_size stream_ log)
     = [call_cudaGetDevice; call_cudaFree (holds r); call_cudaMalloc new_size]
  /\ slot (fst (rmmRealloc cudaFree cudaMalloc (Some r) new_size stream_ log))
     = Some (snd (cudaMalloc (holds r) new_size)).
Proof.
  intros Hfree Hfail. unfold rmmRealloc. cbn. rewrite Hfree. cbn.
  destruct (cudaMalloc (holds r) new_size) as [err p]. cbn in Hfail |- *.
  destruct (RMM_CHECK_CUDA_cases err) as [[-> _] | [[-> ->] | (H0 & H2 & ->)]];
    [contradiction| |]; cbn; repeat split; discriminate.
Qed.

(** X7.  Every call of [rmmRealloc] appends exactly one [Realloc] event
    with the new size and the stream of the call.  On success with a
    slot the pointer of the event is the address of the slot, not the
    block now in it; on every other exit it is 0. *)
Theorem rmmRealloc_logs_every_call
        (ptr_ : option slot_ref) (new_size stream_ : Z) (log : Logger) :
  theLog (fst (rmmRealloc cudaFree cudaMalloc ptr_ new_size stream_ log))
  = log ++ [ {| event := Realloc;
                ptr := if bool_decide
                            (returned (fst (rmmRealloc cudaFree cudaMalloc
                                                       ptr_ new_size stream_ log))
                             = RMM_SUCCESS)
                       then default NULL (address <$> ptr_)
                       else NULL;
                size := new_size; stream := stream_ |} ].
Proof.
  unfold rmmRealloc, LogIt_close, LogIt_open, setPointer.
  destruct ptr_ as [r|]; cbn.
  - destruct (RMM_CHECK_CUDA (cudaFree (holds r))) as [e|] eqn:Hc.
    + cbn. destruct (RMM_CHECK_CUDA_cases (cudaFree (holds r)))
        as [[_ H] | [[_ H] | (_ & _ & H)]]; rewrite H in Hc;
        [discriminate | injection Hc as <- | injection Hc as <-]; reflexivity.
    + destruct (cudaMalloc (holds r) new_size) as [err p].
      destruct (RMM_CHECK_CUDA_cases err) as [[-> ->] | [[-> ->] | (H0 & H2 & ->)]];
        reflexivity.
  - destruct (new_size =? 0); reflexivity.
Qed.

(** X8.  The entry points that wrap one runtime call map its status the
    same way: [rmmInitialize], [rmmFree] and [rmmGetInfo] return
    [RMM_SUCCESS] exactly when the call reported [cudaSuccess] and
    [RMM_ERROR_OUT_OF_MEMORY] exactly when it reported
    [cudaErrorMemoryAllocation]; [rmmFree] makes no exception for a null
    pointer, and [rmmGetInfo] hands on the sizes as the runtime stored
    them. *)
Theorem single_call_status
        (p : void_ptr) (stream_ : Z) (log : Logger) :
  ((rmmInitialize cudaFree = RMM_SUCCESS <-> cudaFree 0 = cudaSuccess)
   /\ (rmmInitialize cudaFree = RMM_ERROR_OUT_OF_MEMORY
       <-> cudaFree 0 = cudaErrorMemoryAllocation))
  /\ ((fst (rmmFree cudaFree p stream_ log) = RMM_SUCCESS <-> cudaFree p = cudaSuccess)
      /\ (fst (rmmFree cudaFree p stream_ log) = RMM_ERROR_OUT_OF_MEMORY
          <-> cudaFree p = cudaErrorMemoryAllocation))
  /\ ((fst (rmmGetInfo cudaMemGetInfo) = RMM_SUCCESS
       <-> fst cudaMemGetInfo = cudaSuccess)
      /\ (fst (rmmGetInfo cudaMemGetInfo) = RMM_ERROR_OUT_OF_MEMORY
          <-> fst cudaMemGetInfo = cudaErrorMemoryAllocation)
      /\ snd (rmmGetInfo cudaMemGetInfo) = snd cudaMemGetInfo).
Proof.
  assert (Hmap : forall e,
             ((match RMM_CHECK_CUDA e with Some x => x | None => RMM_SUCCESS end)
              = RMM_SUCCESS <-> e = cudaSuccess)
             /\ ((match RMM_CHECK_CUDA e with Some x => x | None => RMM_SUCCESS end)
                 = RMM_ERROR_OUT_OF_MEMORY <-> e = cudaErrorMemoryAllocation)).
  { intros e.
    destruct (RMM_CHECK_CUDA_cases e) as [[-> ->] | [[-> ->] | (H0 & H2 & ->)]];
      repeat split; try reflexivity; try discriminate; intros; contradiction. }
  split; [exact (Hmap (cudaFree 0))|]. split.
  - unfold rmmFree. destruct (Hmap (cudaFree p)) as [H1 H2].
    destruct (RMM_CHECK_CUDA (cudaFree p)); cbn; split; assumption.
  - unfold rmmGetInfo. destruct cudaMemGetInfo as [err sizes]. cbn.
    destruct (Hmap err) as [H1 H2].
    destruct (RMM_CHECK_CUDA err); cbn; repeat split; tauto.
Qed.

(** X9.  Every call of [rmmFree] appends exactly one [Free] event with
    the pointer given, size 0 and the stream of the call, whether the
    release succeeded or not; and after a successful [rmmAlloc] of a
    non-empty block, freeing the pointer it wrote leaves the log with
    the two events of that block, in order. *)
Theorem rmmAlloc_then_rmmFree_log
        (old p : void_ptr) (size_ stream1 stream2 : Z) (log : Logger) :
  snd (rmmFree cudaFree p stream2 log)
  = log ++ [ {| event := Free; ptr := p; size := 0; stream := stream2 |} ]
  /\ (size_ <> 0 ->
      cudaMalloc old size_ = (cudaSuccess, p) ->
      slot (rmmAlloc cudaMalloc (Some old) size_ stream1 log) = Some p
      /\ snd (rmmFree cudaFree p stream2
                      (theLog (rmmAlloc cudaMalloc (Some old) size_ stream1 log)))
         = log ++ [ {| event := Alloc; ptr := p; size := size_; stream := stream1 |};
                    {| event := Free; ptr := p; size := 0; stream := stream2 |} ]).
Proof.
  assert (Hfree : forall l, snd (rmmFree cudaFree p stream2 l)
                            = l ++ [ {| event := Free; ptr := p; size := 0;
                                        stream := stream2 |} ]).
  { intros l. unfold rmmFree. destruct (RMM_CHECK_CUDA (cudaFree p)); reflexivity. }
  split; [apply Hfree|].
  intros Hsz Hm. rewrite Hfree. unfold rmmAlloc, record.
  rewrite (proj2 (Z.eqb_neq size_ 0)) by exact Hsz. cbn. rewrite Hm. cbn.
  split; [reflexivity|]. rewrite <- app_assoc. reflexivity.
Qed.

(** X10.  [rmmGetLog] with a buffer of [rmmLogSize()] characters or more
    and that size as [buffer_size] puts the whole report at the start of
    the buffer and leaves the rest of the buffer as it was; it writes no
    terminator. *)
Theorem rmmGetLog_fetches_whole_report
        (buffer : list ascii) (log : Logger) :
  rmmLogSize to_csv log <= Z.of_nat (length buffer) ->
  take (length (to_csv log))
       (snd (rmmGetLog to_csv buffer (rmmLogSize to_csv log) log))
  = to_csv log
  /\ drop (length (to_csv log))
          (snd (rmmGetLog to_csv buffer (rmmLogSize to_csv log) log))
     = drop (length (to_csv log)) buffer
  /\ length (snd (rmmGetLog to_csv buffer (rmmLogSize to_csv log) log))
     = length buffer.
Proof.
  unfold rmmLogSize, rmmGetLog. intros Hlen. cbn.
  rewrite Z.min_id, Nat2Z.id, firstn_all.
  split; [|split].
  - rewrite take_app_length. reflexivity.
  - rewrite drop_app_length. reflexivity.
  - rewrite length_app, length_drop. lia.
Qed.

(** X11.  [rmmGetLog] never writes past [buffer_size]: with
    [buffer_size] within the buffer, the buffer keeps its length and
    every character from [buffer_size] on; the characters before
    [buffer_size] that the report reaches are the report's.  A buffer
    shorter than the report gets the report cut at [buffer_size], and
    the call still returns [RMM_SUCCESS]. *)
Theorem rmmGetLog_stays_in_buffer
        (buffer : list ascii) (buffer_size : Z) (log : Logger) :
  0 <= buffer_size <= Z.of_nat (length buffer) ->
  fst (rmmGetLog to_csv buffer buffer_size log) = RMM_SUCCESS
  /\ length (snd (rmmGetLog to_csv buffer buffer_size log)) = length buffer
  /\ (forall i : nat,
        buffer_size <= Z.of_nat i ->
        snd (rmmGetLog to_csv buffer buffer_size log) !! i = buffer !! i)
  /\ (forall i : nat,
        Z.of_nat i < Z.min buffer_size (rmmLogSize to_csv log) ->
        snd (rmmGetLog to_csv buffer buffer_size log) !! i = to_csv log !! i).
Proof.
  unfold rmmLogSize, rmmGetLog. intros Hsz. cbn.
  set (n := Z.to_nat (Z.min buffer_size (Z.of_nat (length (to_csv log))))).
  assert (Hn : (n <= length (to_csv log))%nat) by lia.
  assert (Hnb : (n <= length buffer)%nat) by lia.
  assert (Htake : length (take n (to_csv log)) = n)
    by (rewrite length_take; lia).
  split; [reflexivity|]. split; [|split].
  - rewrite length_app, Htake, length_drop. lia.
  - intros i Hi.
    rewrite lookup_app_r by lia.
    rewrite Htake, lookup_drop. f_equal. lia.
  - intros i Hi.
    rewrite lookup_app_l by lia.
    apply lookup_take_lt. lia.
Qed.

End Runtime.

(** X5 with a slot at 8 that holds 64 and a runtime whose release
    fails. *)
Lemma rmmRealloc_failed_release_keeps_slot_witness :
  returned (fst (rmmRealloc Scenario.cudaFree_broken Scenario.cudaMalloc_ok
                            (Some {| address := 8; holds := 64 |}) 128 0 []))
  = RMM_ERROR_CUDA_ERROR
  /\ slot (fst (rmmRealloc Scenario.cudaFree_broken Scenario.cudaMalloc_ok
                           (Some {| address := 8; holds := 64 |}) 128 0 []))
     = Some 64
  /\ rmmRealloc Scenario.cudaFree_broken Scenario.cudaMalloc_ok
                (Some {| address := 8; holds := 64 |}) 128 0 []
     = rmmRealloc Scenario.cudaFree_broken Scenario.cudaMalloc_no_memory
                  (Some {| address := 8; holds := 64 |}) 128 0 [].
Proof.
  apply (rmmRealloc_failed_release_keeps_slot
           Scenario.cudaFree_broken Scenario.cudaMalloc_ok
           Scenario.cudaMalloc_no_memory
           {| address := 8; holds := 64 |} 128 0 []).
  discriminate.
Defined.

(** X6 with a release that succeeds and a device out of memory. *)
Lemma rmmRealloc_failed_allocation_loses_block_witness :
  returned (fst (rmmRealloc Scenario.cudaFree_ok Scenario.cudaMalloc_no_memory
                            (Some {| address := 8; holds := 64 |}) 128 0 []))
  <> RMM_SUCCESS
  /\ snd (rmmRealloc Scenario.cudaFree_ok Scenario.cudaMalloc_no_memory
                     (Some {| address := 8; holds := 64 |}) 128 0 [])
     = [call_cudaGetDevice; call_cudaFree 64; call_cudaMalloc 128]
  /\ slot (fst (rmmRealloc Scenario.cudaFree_ok Scenario.cudaMalloc_no_memory
                           (Some {| address := 8; holds := 64 |}) 128 0 []))
     = Some 64.
Proof.
  apply (rmmRealloc_failed_allocation_loses_block
           Scenario.cudaFree_ok Scenario.cudaMalloc_no_memory
           {| address := 8; holds := 64 |} 128 0 []).
  - reflexivity.
  - discriminate.
Defined.

(** X9 with an allocation of 128 bytes on stream 1 freed on stream 2. *)
Lemma rmmAlloc_then_rmmFree_log_witness :
  slot (rmmAlloc Scenario.cudaMalloc_ok (Some 0) 128 1 []) = Some 4096
  /\ snd (rmmFree Scenario.cudaFree_ok 4096 2
                  (theLog (rmmAlloc Scenario.cudaMalloc_ok (Some 0) 128 1 [])))
     = [] ++ [ {| event := Alloc; ptr := 4096; size := 128; stream := 1 |};
               {| event := Free; ptr := 4096; size := 0; stream := 2 |} ].
Proof.
  apply (proj2 (rmmAlloc_then_rmmFree_log
                  Scenario.cudaFree_ok Scenario.cudaMalloc_ok 0 4096 128 1 2 [])).
  - discriminate.
  - reflexivity.
Defined.

(** X10 with a log of two events and a buffer of three characters. *)
Lemma rmmGetLog_fetches_whole_report_witness :
  take 2 (snd (rmmGetLog Scenario.to_csv ["x"; "y"; "z"]%char 2
                         [ {| event := Alloc; ptr := 4096; size := 128; stream := 1 |};
                           {| event := Free; ptr := 4096; size := 0; stream := 2 |} ]))
  = ["A"; "F"]%char
  /\ drop 2 (snd (rmmGetLog Scenario.to_csv ["x"; "y"; "z"]%char 2
                            [ {| event := Alloc; ptr := 4096; size := 128; stream := 1 |};
                              {| event := Free; ptr := 4096; size := 0; stream := 2 |} ]))
     = ["z"]%char
  /\ length (snd (rmmGetLog Scenario.to_csv ["x"; "y"; "z"]%char 2
                            [ {| event := Alloc; ptr := 4096; size := 128; stream := 1 |};
                              {| event := Free; ptr := 4096; size := 0; stream := 2 |} ]))
     = 3%nat.
Proof.
  apply (rmmGetLog_fetches_whole_report
           Scenario.to_csv ["x"; "y"; "z"]%char
           [ {| event := Alloc; ptr := 4096; size := 128; stream := 1 |};
             {| event := Free; ptr := 4096; size := 0; stream := 2 |} ]).
  vm_compute. discriminate.
Defined.

(** X11 with a log of two events and room for one character only. *)
Lemma rmmGetLog_stays_in_buffer_witness :
  fst (rmmGetLog Scenario.to_csv ["x"; "y"; "z"]%char 1
                 [ {| event := Alloc; ptr := 4096; size := 128; stream := 1 |};
                   {| event := Free; ptr := 4096; size := 0; stream := 2 |} ])
  = RMM_SUCCESS
  /\ snd (rmmGetLog Scenario.to_csv ["x"; "y"; "z"]%char 1
                    [ {| event := Alloc; ptr := 4096; size := 128; stream := 1 |};
                      {| event := Free; ptr := 4096; size := 0; stream := 2 |} ])
     = ["A"; "y"; "z"]%char.
Proof.
  destruct (rmmGetLog_stays_in_buffer
              Scenario.to_csv ["x"; "y"; "z"]%char 1
              [ {| event := Alloc; ptr := 4096; size := 128; stream := 1 |};
                {| event := Free; ptr := 4096; size := 0; stream := 2 |} ])
    as (Hok & _).
  - vm_compute. split; discriminate.
  - split; [exact Hok | reflexivity].
Defined.

End RmmFacts.

(* ===================================================================== *)
(** ** Further properties of range copy and fill *)
(* ===================================================================== *)

(** *** What the kernel loop leaves alone *)

Lemma load_insert_other (d : list Z) (n : nat) (x p : Z) :
  0 <= p -> Z.to_nat p <> n -> load (<[n := x]> d) p = load d p.
Proof.
  intros Hp Hne. unfold load.
  destruct (p <? 0); [reflexivity|].
  rewrite list_lookup_insert_ne by congruence. reflexivity.
Qed.

Lemma is_valid_set_valid_other (m : list Z) (q p : Z) :
  0 <= p -> p <> q -> is_valid (set_valid m q) p = is_valid m p.
Proof.
  intros Hp Hne.
  destruct (Z_lt_dec q 0) as [Hneg|Hq].
  { unfold set_valid. rewrite (proj2 (Z.ltb_lt q 0)) by exact Hneg. reflexivity. }
  destruct (Z_lt_dec (q / 32) (Z.of_nat (length m))) as [Hin|Hout].
  - rewrite is_valid_set_valid by lia. apply decide_False. exact Hne.
  - unfold set_valid. rewrite (proj2 (Z.ltb_ge q 0)) by lia.
    rewrite list_insert_ge; [reflexivity|].
    assert (0 <= q / 32) by (apply Z.div_pos; lia). lia.
Qed.

Lemma is_valid_clear_valid_other (m : list Z) (q p : Z) :
  0 <= p -> p <> q -> is_valid (clear_valid m q) p = is_valid m p.
Proof.
  intros Hp Hne.
  destruct (Z_lt_dec q 0) as [Hneg|Hq].
  { unfold clear_valid. rewrite (proj2 (Z.ltb_lt q 0)) by exact Hneg. reflexivity. }
  destruct (Z_lt_dec (q / 32) (Z.of_nat (length m))) as [Hin|Hout].
  - rewrite is_valid_clear_valid by lia. apply decide_False. exact Hne.
  - unfold clear_valid. rewrite (proj2 (Z.ltb_ge q 0)) by lia.
    rewrite list_insert_ge; [reflexivity|].
    assert (0 <= q / 32) by (apply Z.div_pos; lia). lia.
Qed.

(** Whatever the buffers' lengths, the loop keeps them and touches no
    position other than [begin + i] for the indices [i] it runs over. *)
Lemma kernel_loop_frame (f : functor) (b : Z) (l : list Z) :
  forall d m d' m',
    fold_left (kernel_step f b) l (d, m) = (d', m') ->
    length d' = length d /\ length m' = length m /\
    forall p, 0 <= p -> ~ (p - b) ∈ l ->
      load d' p = load d p /\ is_valid m' p = is_valid m p.
Proof.
  induction l as [|i l IH]; intros d m d' m' Hfold.
  - cbn in Hfold. injection Hfold as <- <-. repeat split.
  - cbn [fold_left] in Hfold.
    destruct (kernel_step f b (d, m) i) as [d1 m1] eqn:Hstep.
    destruct (IH _ _ _ _ Hfold) as (Hld & Hlm & Hrest).
    unfold kernel_step in Hstep. injection Hstep as <- <-.
    split; [|split].
    + rewrite Hld. destruct (b + i <? 0); [reflexivity | apply length_insert].
    + rewrite Hlm. destruct (functor_valid f i);
        [apply length_set_valid | apply length_clear_valid].
    + intros p Hp Hnot.
      assert (Hpi : p <> b + i).
      { intros ->. apply Hnot. replace (b + i - b) with i by lia. left. }
      destruct (Hrest p Hp) as [-> ->].
      { intros Hel. apply Hnot. right. exact Hel. }
      split.
      * destruct (b + i <? 0) eqn:E; [reflexivity|]. apply Z.ltb_ge in E.
        apply load_insert_other; [assumption | lia].
      * destruct (functor_valid f i);
          [apply is_valid_set_valid_other | apply is_valid_clear_valid_other];
          assumption.
Qed.

(** A completed kernel call keeps the header, the dictionary handle and
    the lengths of the buffers, and every element and validity bit
    outside the range. *)
Lemma typed_range_copy_kernel_frame out input b e c :
  typed_range_copy_kernel out input b e = Completed c ->
  size c = size out /\ dtype c = dtype out /\ dtype_info c = dtype_info out /\
  length (data c) = length (data out) /\ length (valid c) = length (valid out) /\
  forall p, 0 <= p -> ~ (b <= p < e) ->
    load (data c) p = load (data out) p
    /\ is_valid (valid c) p = is_valid (valid out) p.
Proof.
  unfold typed_range_copy_kernel.
  destruct ((0 <=? b) && (b <=? e) && (e <=? size out)); [|discriminate].
  destruct (fold_left _ _ _) as [d m] eqn:Hfold.
  intros [= <-]. cbn.
  apply kernel_loop_frame in Hfold as (Hld & Hlm & Hrest).
  repeat split; try assumption.
  - apply Hrest; [assumption|]. rewrite elem_of_seqZ. lia.
  - apply Hrest; [assumption|]. rewrite elem_of_seqZ. lia.
Qed.

(** Two sources that supply the same elements and validity for the
    indices of the loop give the same loop. *)
Lemma kernel_loop_ext (f g : functor) (b : Z) (l : list Z) :
  (forall i, i ∈ l ->
     functor_data f i = functor_data g i /\ functor_valid f i = functor_valid g i) ->
  forall st, fold_left (kernel_step f b) l st = fold_left (kernel_step g b) l st.
Proof.
  induction l as [|i l IH]; intros Hagree st; [reflexivity|].
  cbn [fold_left].
  assert (Hstep : kernel_step f b st i = kernel_step g b st i).
  { destruct st as [d m]. unfold kernel_step.
    destruct (Hagree i) as [-> ->]; [left | reflexivity]. }
  rewrite Hstep. apply IH. intros j Hj. apply Hagree. right. exact Hj.
Qed.

Section MoreOperations.

Local Arguments wrap32 : simpl never.

Variable validate : gdf_column -> bool.

(** X12.  A call over a non-empty range that fails one of the checks the
    two operations make themselves (validation of either column, equal
    type tags, and for [copy_range] the bounds of the source range) is
    rejected with an error fixed by those checks alone, in the state the
    call was given: nothing is written, no temporary is made, and
    neither the synchronisation nor the kernel path has any say. *)
Theorem rejection_by_own_checks_touches_nothing
        (in_column : gdf_column) (out_begin out_end in_begin : Z)
        (value : gdf_scalar) (b e : Z) (w : world) :
  (int32 out_begin -> int32 out_end -> out_begin <> out_end ->
   validate in_column && validate (out_column w)
   && bool_decide (dtype (out_column w) = dtype in_column)
   && ((0 <=? in_begin)
       && (wrap32 (in_begin + wrap32 (out_end - out_begin)) <=? size in_column))
   = false ->
   exists err,
     err <> ReconciliationError
     /\ forall sync_column_categories detail_copy_range,
          copy_range validate sync_column_categories detail_copy_range
                     in_column out_begin out_end in_begin w = Thrown err w)
  /\ (b <> e ->
      validate (out_column w)
      && bool_decide (dtype (out_column w) = scalar_dtype value) = false ->
      exists err,
        (err = ValidationError \/ err = TypeMismatchError)
        /\ forall detail_copy_range,
             fill validate detail_copy_range value b e w = Thrown err w).
Proof.
  split.
  - intros Hob Hoe Hne Hfail.
    assert (Hn : (wrap32 (out_end - out_begin) =? 0) = false).
    { apply Z.eqb_neq. intros H0. apply Hne. symmetry.
      apply wrap32_sub_eq0; assumption. }
    destruct (validate in_column) eqn:Hvi; cbn in Hfail;
      [|exists ValidationError; split; [discriminate|]; intros;
        rewrite copy_range_checks, Hn, Hvi; reflexivity].
    destruct (validate (out_column w)) eqn:Hvo; cbn in Hfail;
      [|exists ValidationError; split; [discriminate|]; intros;
        rewrite copy_range_checks, Hn, Hvi, Hvo; reflexivity].
    destruct (bool_decide (dtype (out_column w) = dtype in_column)) eqn:Ht;
      cbn in Hfail;
      [|exists TypeMismatchError; split; [discriminate|]; intros;
        rewrite copy_range_checks, Hn, Hvi, Hvo, Ht; reflexivity].
    exists RangeError. split; [discriminate|]. intros.
    rewrite copy_range_checks, Hn, Hvi, Hvo, Ht, Hfail. reflexivity.
  - intros Hne Hfail.
    assert (Hn : (e =? b) = false) by (apply Z.eqb_neq; congruence).
    destruct (validate (out_column w)) eqn:Hvo; cbn in Hfail;
      [|exists ValidationError; split; [left; reflexivity|]; intros;
        rewrite fill_checks, Hn, Hvo; reflexivity].
    exists TypeMismatchError. split; [right; reflexivity|]. intros.
    rewrite fill_checks, Hn, Hvo, Hfail. reflexivity.
Qed.

(** X13.  On columns whose tag is not the category tag, [copy_range] has
    nothing to do with the dictionary synchronisation and makes no
    temporary: its outcome is the same for every synchronisation, and
    whether it returns or throws the number of temporaries held is the
    one before the call. *)
Theorem copy_range_plain_path_is_direct
        (sync sync' : gdf_column * gdf_column -> gdf_column * gdf_column -> synced)
        (detail_copy_range : gdf_column -> input_factory -> Z -> Z -> kernel_result)
        (in_column : gdf_column) (out_begin out_end in_begin : Z) (w : world) :
  dtype (out_column w) <> GDF_STRING_CATEGORY ->
  copy_range validate sync detail_copy_range in_column out_begin out_end in_begin w
  = copy_range validate sync' detail_copy_range in_column out_begin out_end in_begin w
  /\ forall w',
       (copy_range validate sync detail_copy_range
                   in_column out_begin out_end in_begin w = Returned tt w'
        \/ exists err,
             copy_range validate sync detail_copy_range
                        in_column out_begin out_end in_begin w = Thrown err w') ->
       temporaries w' = temporaries w.
Proof.
  intros Hcat. rewrite !copy_range_checks.
  rewrite (bool_decide_eq_false_2 _ Hcat). split; [reflexivity|].
  intros w'. unfold on_out_column.
  destruct (wrap32 (out_end - out_begin) =? 0);
    [intros [[= <-] | [err [=]]]; reflexivity|].
  repeat match goal with
         | |- context [if negb ?c then _ else _] =>
             destruct (negb c); [intros [[=] | [err [= _ <-]]]; reflexivity|]
         end.
  destruct (detail_copy_range _ _ _ _).
  - intros [[= <-] | [err [=]]]. reflexivity.
  - intros [[=] | [err [= _ <-]]]. reflexivity.
Qed.

(** X14.  Every [copy_range] that returns has released what it made: the
    number of temporaries held is the one before the call, for every
    type tag and every kernel path.  A [copy_range] that throws holds
    either no temporary more, or, on category columns only, exactly the
    two it made.  [fill] never makes a temporary. *)
Theorem temporaries_are_balanced_on_return
        (sync_column_categories :
           gdf_column * gdf_column -> gdf_column * gdf_column -> synced)
        (detail_copy_range : gdf_column -> input_factory -> Z -> Z -> kernel_result)
        (in_column : gdf_column) (out_begin out_end in_begin : Z)
        (value : gdf_scalar) (b e : Z) (w w' : world) (err : error) :
  (copy_range validate sync_column_categories detail_copy_range
              in_column out_begin out_end in_begin w = Returned tt w' ->
   temporaries w' = temporaries w)
  /\ (copy_range validate sync_column_categories detail_copy_range
                 in_column out_begin out_end in_begin w = Thrown err w' ->
      temporaries w' = temporaries w
      \/ (dtype (out_column w) = GDF_STRING_CATEGORY
          /\ temporaries w' = (2 + temporaries w)%nat))
  /\ (fill validate detail_copy_range value b e w = Returned tt w'
      \/ fill validate detail_copy_range value b e w = Thrown err w' ->
      temporaries w' = temporaries w).
Proof.
  rewrite copy_range_checks, fill_checks. cbn zeta. unfold on_out_column.
  split; [|split].
  - repeat match goal with
           | |- context [if ?c then _ else _] => destruct c
           end; try discriminate; try (intros [= <-]; reflexivity).
    + destruct (detail_copy_range _ _ _ _); [|discriminate].
      intros [= <-]. reflexivity.
    + destruct (detail_copy_range _ _ _ _); [|discriminate].
      intros [= <-]. reflexivity.
  - destruct (wrap32 (out_end - out_begin) =? 0); [discriminate|].
    repeat match goal with
           | |- context [if negb ?c then _ else _] =>
               destruct (negb c); [intros [= _ <-]; left; reflexivity|]
           end.
    destruct (bool_decide (dtype (out_column w) = GDF_STRING_CATEGORY)) eqn:Ecat.
    + apply bool_decide_eq_true_1 in Ecat.
      destruct (negb (bool_decide (GDF_SUCCESS = _)));
        [intros [= _ <-]; right; split; [assumption | reflexivity]|].
      destruct (detail_copy_range _ _ _ _); [discriminate|].
      intros [= _ <-]. right. split; [assumption | reflexivity].
    + destruct (detail_copy_range _ _ _ _); [discriminate|].
      intros [= _ <-]. left. reflexivity.
  - destruct (e =? b); [intros [[= <-] | [=]]; reflexivity|].
    repeat match goal with
           | |- context [if negb ?c then _ else _] =>
               destruct (negb c); [intros [[=] | [= _ <-]]; reflexivity|]
           end.
    destruct (detail_copy_range _ _ _ _).
    + intros [[= <-] | [=]]. reflexivity.
    + intros [[=] | [= _ <-]]. reflexivity.
Qed.

(** X15.  On category columns that pass the checks and whose
    synchronisation succeeds, a kernel path that throws on the temporary
    destination makes [copy_range] throw the same error with the real
    destination as it was and with both temporaries still held: this
    exit, too, skips the two [gdf_column_free] calls. *)
Theorem copy_range_kernel_failure_keeps_temporaries
        (sync_column_categories :
           gdf_column * gdf_column -> gdf_column * gdf_column -> synced)
        (detail_copy_range : gdf_column -> input_factory -> Z -> Z -> kernel_result)
        (in_column : gdf_column) (out_begin out_end in_begin : Z) (w : world)
        (err : error) (c : gdf_column) :
  wrap32 (out_end - out_begin) <> 0 ->
  validate in_column = true ->
  validate (out_column w) = true ->
  dtype (out_column w) = dtype in_column ->
  dtype (out_column w) = GDF_STRING_CATEGORY ->
  0 <= in_begin ->
  wrap32 (in_begin + wrap32 (out_end - out_begin)) <= size in_column ->
  status (sync_column_categories (out_column w, in_column)
                                 (out_column w, in_column)) = GDF_SUCCESS ->
  detail_copy_range
    (with_codes (out_column w)
       (out_codes (sync_column_categories (out_column w, in_column)
                                          (out_column w, in_column)))
       (out_category (sync_column_categories (out_column w, in_column)
                                             (out_column w, in_column))))
    (column_range_factory
       (with_codes in_column
          (in_codes (sync_column_categories (out_column w, in_column)
                                            (out_column w, in_column)))
          (in_category (sync_column_categories (out_column w, in_column)
                                               (out_column w, in_column))))
       in_begin)
    out_begin out_end = Aborted err c ->
  copy_range validate sync_column_categories detail_copy_range
             in_column out_begin out_end in_begin w
  = Thrown err {| out_column := out_column w;
                  temporaries := (2 + temporaries w)%nat |}.
Proof.
  intros Hn Hvi Hvo Ht Hcat Hib0 Hsrc Hok Hk.
  rewrite copy_range_checks.
  rewrite (proj2 (Z.eqb_neq _ 0)) by exact Hn.
  rewrite Hvi, Hvo. cbn [negb].
  rewrite bool_decide_eq_true_2 by exact Ht. cbn [negb].
  rewrite (proj2 (Z.leb_le 0 in_begin)) by exact Hib0.
  rewrite (proj2 (Z.leb_le _ _)) by exact Hsrc. cbn [andb negb].
  rewrite bool_decide_eq_true_2 by exact Hcat. cbn zeta.
  rewrite bool_decide_eq_true_2 by (symmetry; exact Hok). cbn [negb].
  rewrite Hk. reflexivity.
Qed.

(** X16.  With the kernel path of the spec, a [copy_range] on category
    columns over a non-empty valid range whose synchronisation succeeds
    returns with both temporaries released and re-encodes the whole
    destination: the destination's dictionary handle is the one the
    synchronisation made for it, every element outside
    [[out_begin, out_end)] is the reconciled code the synchronisation
    wrote for that element, and every validity bit outside the range is
    as before; size and type tag are kept. *)
Theorem category_copy_reencodes_destination
        (sync_column_categories :
           gdf_column * gdf_column -> gdf_column * gdf_column -> synced)
        (in_column : gdf_column) (out_begin out_end in_begin : Z) (w : world) :
  validate in_column = true ->
  validate (out_column w) = true ->
  laid_out in_column = true ->
  laid_out (out_column w) = true ->
  dtype (out_column w) = dtype in_column ->
  dtype (out_column w) = GDF_STRING_CATEGORY ->
  0 <= out_begin -> out_begin < out_end -> out_end <= size (out_column w) ->
  0 <= in_begin -> in_begin + (out_end - out_begin) <= size in_column ->
  status (sync_column_categories (out_column w, in_column)
                                 (out_column w, in_column)) = GDF_SUCCESS ->
  size (out_column w)
  <= Z.of_nat (length (out_codes (sync_column_categories (out_column w, in_column)
                                                         (out_column w, in_column)))) ->
  exists w',
    copy_range validate sync_column_categories typed_range_copy_kernel
               in_column out_begin out_end in_begin w = Returned tt w'
    /\ temporaries w' = temporaries w
    /\ size (out_column w') = size (out_column w)
    /\ dtype (out_column w') = dtype (out_column w)
    /\ category (dtype_info (out_column w'))
       = out_category (sync_column_categories (out_column w, in_column)
                                              (out_column w, in_column))
    /\ forall p, 0 <= p -> ~ (out_begin <= p < out_end) ->
         load (data (out_column w')) p
         = load (out_codes (sync_column_categories (out_column w, in_column)
                                                   (out_column w, in_column))) p
         /\ is_valid (valid (out_column w')) p = is_valid (valid (out_column w)) p.
Proof.
  intros Hvi Hvo Hli Hlo Ht Hcat Hob Hlt Hsz Hib Hsrc Hok Hcodes.
  pose proof (laid_out_spec _ Hli) as (Hi0 & Hi31 & _ & _).
  pose proof (laid_out_spec _ Hlo) as (Ho0 & Ho31 & Hod & Hom).
  rewrite copy_range_checks.
  assert (Hn : wrap32 (out_end - out_begin) = out_end - out_begin)
    by (apply wrap32_int32; unfold int32; lia).
  rewrite Hn, (proj2 (Z.eqb_neq _ 0)) by lia.
  rewrite Hvi, Hvo. cbn [negb].
  rewrite bool_decide_eq_true_2 by exact Ht. cbn [negb].
  rewrite wrap32_int32 by (unfold int32; lia).
  rewrite (proj2 (Z.leb_le 0 in_begin)) by exact Hib.
  rewrite (proj2 (Z.leb_le _ _)) by exact Hsrc. cbn [andb negb].
  rewrite bool_decide_eq_true_2 by exact Hcat. cbn zeta.
  rewrite bool_decide_eq_true_2 by (symmetry; exact Hok). cbn [negb].
  set (s := sync_column_categories (out_column w, in_column)
                                   (out_column w, in_column)) in *.
  destruct (typed_range_copy_kernel_spec
              (with_codes (out_column w) (out_codes s) (out_category s))
              (column_range_factory
                 (with_codes in_column (in_codes s) (in_category s)) in_begin)
              out_begin out_end)
    as (c & Hk & _ & _ & Hinfo & _ & Hall); try assumption; try lia.
  { unfold laid_out, with_codes. cbn.
    rewrite !andb_true_iff, !Z.leb_le, Z.ltb_lt. lia. }
  rewrite Hk. eexists. split; [reflexivity|]. cbn.
  split; [reflexivity|]. split; [reflexivity|]. split; [reflexivity|].
  split; [rewrite Hinfo; reflexivity|].
  intros p Hp Hout. destruct (Hall p Hp) as [Hd Hb].
  rewrite Hd, Hb, !decide_False by exact Hout. split; reflexivity.
Qed.

(** X17.  With the kernel path of the spec, a returning [fill], and a
    returning [copy_range] on columns whose tag is not the category tag,
    write nothing but the range: size, type tag, dictionary handle and
    the lengths of both buffers are kept, and every element and every
    validity bit outside the range is as before.  This needs no
    assumption on the column or on the range. *)
Theorem only_the_range_is_written
        (sync_column_categories :
           gdf_column * gdf_column -> gdf_column * gdf_column -> synced)
        (in_column : gdf_column) (out_begin out_end in_begin : Z)
        (value : gdf_scalar) (b e : Z) (w w' : world) :
  (dtype (out_column w) <> GDF_STRING_CATEGORY ->
   copy_range validate sync_column_categories typed_range_copy_kernel
              in_column out_begin out_end in_begin w = Returned tt w' ->
   size (out_column w') = size (out_column w)
   /\ dtype (out_column w') = dtype (out_column w)
   /\ dtype_info (out_column w') = dtype_info (out_column w)
   /\ length (data (out_column w')) = length (data (out_column w))
   /\ length (valid (out_column w')) = length (valid (out_column w))
   /\ forall p, 0 <= p -> ~ (out_begin <= p < out_end) ->
        load (data (out_column w')) p = load (data (out_column w)) p
        /\ is_valid (valid (out_column w')) p = is_valid (valid (out_column w)) p)
  /\ (fill validate typed_range_copy_kernel value b e w = Returned tt w' ->
      size (out_column w') = size (out_column w)
      /\ dtype (out_column w') = dtype (out_column w)
      /\ dtype_info (out_column w') = dtype_info (out_column w)
      /\ length (data (out_column w')) = length (data (out_column w))
      /\ length (valid (out_column w')) = length (valid (out_column w))
      /\ forall p, 0 <= p -> ~ (b <= p < e) ->
           load (data (out_column w')) p = load (data (out_column w)) p
           /\ is_valid (valid (out_column w')) p = is_valid (valid (out_column w)) p).
Proof.
  split.
  - intros Hcat. rewrite copy_range_checks.
    rewrite (bool_decide_eq_false_2 _ Hcat). unfold on_out_column.
    destruct (wrap32 (out_end - out_begin) =? 0);
      [intros [= <-]; repeat split|].
    repeat match goal with
           | |- context [if negb ?c then _ else _] =>
               destruct (negb c); [discriminate|]
           end.
    destruct (typed_range_copy_kernel _ _ _ _) as [c|] eqn:Hk; [|discriminate].
    intros [= <-]. cbn. apply typed_range_copy_kernel_frame in Hk. exact Hk.
  - rewrite fill_checks. unfold on_out_column.
    destruct (e =? b); [intros [= <-]; repeat split|].
    repeat match goal with
           | |- context [if negb ?c then _ else _] =>
               destruct (negb c); [discriminate|]
           end.
    destruct (typed_range_copy_kernel _ _ _ _) as [c|] eqn:Hk; [|discriminate].
    intros [= <-]. cbn. apply typed_range_copy_kernel_frame in Hk. exact Hk.
Qed.

(** X18.  With the kernel path of the spec, [copy_range] on columns whose
    tag is not the category tag reads the source only inside
    [[in_begin, in_begin + (out_end - out_begin))]: two sources with the
    same header (validation, type tag, size) that agree on the elements
    and validity bits of that range give the same outcome. *)
Theorem copy_range_reads_only_source_range
        (sync_column_categories :
           gdf_column * gdf_column -> gdf_column * gdf_column -> synced)
        (in1 in2 : gdf_column) (out_begin out_end in_begin : Z) (w : world) :
  dtype (out_column w) <> GDF_STRING_CATEGORY ->
  validate in1 = validate in2 ->
  dtype in1 = dtype in2 ->
  size in1 = size in2 ->
  0 <= in_begin -> in_begin + (out_end - out_begin) <= 2 ^ 31 ->
  (forall i, 0 <= i < out_end - out_begin ->
     load (data in1) (in_begin + i) = load (data in2) (in_begin + i)
     /\ is_valid (valid in1) (in_begin + i) = is_valid (valid in2) (in_begin + i)) ->
  copy_range validate sync_column_categories typed_range_copy_kernel
             in1 out_begin out_end in_begin w
  = copy_range validate sync_column_categories typed_range_copy_kernel
               in2 out_begin out_end in_begin w.
Proof.
  intros Hcat Hv Ht Hs Hib Hmax Hagree.
  rewrite !copy_range_checks, Hv, Ht, Hs.
  rewrite (bool_decide_eq_false_2 _ Hcat).
  repeat match goal with
         | |- context [if ?c then _ else _] => destruct c; [reflexivity|]
         end.
  unfold on_out_column, typed_range_copy_kernel.
  destruct ((0 <=? out_begin) && (out_begin <=? out_end)
            && (out_end <=? size (out_column w))); [|reflexivity].
  rewrite (kernel_loop_ext
             (make_functor (column_range_factory in1 in_begin) (dtype (out_column w)))
             (make_functor (column_range_factory in2 in_begin) (dtype (out_column w))));
    [reflexivity|].
  intros i Hi. apply elem_of_seqZ in Hi. cbn.
  rewrite wrap32_int32 by (unfold int32; lia). apply Hagree. lia.
Qed.

(** X19.  With the kernel path of the spec, [fill] reads the scalar's
    union only through the physical type of its tag: two scalars with
    the same tag and validity flag whose unions agree on the first
    [sizeof(T)] bytes give the same outcome. *)
Theorem fill_reads_scalar_through_its_type
        (v v' : gdf_scalar) (b e : Z) (w : world) :
  scalar_dtype v = scalar_dtype v' ->
  scalar_is_valid v = scalar_is_valid v' ->
  scalar_data v mod 2 ^ (8 * size_of (scalar_dtype v))
  = scalar_data v' mod 2 ^ (8 * size_of (scalar_dtype v)) ->
  fill validate typed_range_copy_kernel v b e w
  = fill validate typed_range_copy_kernel v' b e w.
Proof.
  intros Ht Hvalid Hbytes.
  rewrite !fill_checks, <- Ht.
  destruct (e =? b); [reflexivity|].
  destruct (negb (validate (out_column w))); [reflexivity|].
  destruct (bool_decide (dtype (out_column w) = scalar_dtype v)) eqn:Et;
    [|reflexivity].
  apply bool_decide_eq_true_1 in Et. cbn [negb].
  unfold on_out_column, typed_range_copy_kernel.
  assert (Hf : make_functor (scalar_factory v) (dtype (out_column w))
               = make_functor (scalar_factory v') (dtype (out_column w))).
  { cbn. rewrite Et, Hvalid.
    rewrite !Z.land_ones by (destruct (scalar_dtype v); cbn; lia).
    rewrite Hbytes. reflexivity. }
  rewrite Hf. reflexivity.
Qed.

(** A scalar source supplies the same element and validity at every
    index, so the loop over the indices from [k] of a range that begins
    at [a] is the loop over the indices from 0 of the range that begins
    at [a + k]. *)
Lemma kernel_loop_scalar_shift (s : scalar_functor) (a k : Z) (l : list Z) :
  forall st,
    fold_left (kernel_step (of_scalar s) a) (Z.add k <$> l) st
    = fold_left (kernel_step (of_scalar s) (a + k)) l st.
Proof.
  induction l as [|j l IH]; intros st; [reflexivity|].
  cbn [fmap list_fmap fold_left].
  replace (kernel_step (of_scalar s) a st (k + j))
    with (kernel_step (of_scalar s) (a + k) st j).
  - apply IH.
  - destruct st as [d m]. unfold kernel_step. cbn.
    replace (a + k + j) with (a + (k + j)) by lia. reflexivity.
Qed.

(** X20.  With the kernel path of the spec, fills of adjacent ranges
    compose: after [fill(value, a, b)] has returned, [fill(value, b, c)]
    on the column it left (still accepted by validation, [c] within the
    column) ends exactly as the single [fill(value, a, c)] on the
    original column: same buffers, same bitmap, same null count. *)
Theorem adjacent_fills_compose
        (v : gdf_scalar) (a b c : Z) (w w1 : world) :
  a <= b -> b <= c -> c <= size (out_column w) ->
  fill validate typed_range_copy_kernel v a b w = Returned tt w1 ->
  validate (out_column w1) = validate (out_column w) ->
  fill validate typed_range_copy_kernel v b c w1
  = fill validate typed_range_copy_kernel v a c w.
Proof.
  intros Hab Hbc Hc Hfirst Hv1.
  rewrite fill_checks in Hfirst.
  destruct (Z.eqb_spec b a) as [->|Hne].
  { injection Hfirst as <-. reflexivity. }
  destruct (Z.eq_dec c b) as [->|Hcb].
  { rewrite (fill_checks _ _ _ b b), Z.eqb_refl.
    rewrite fill_checks, (proj2 (Z.eqb_neq b a)) by exact Hne.
    exact (eq_sym Hfirst). }
  rewrite !fill_checks.
  rewrite (proj2 (Z.eqb_neq c b)) by exact Hcb.
  rewrite (proj2 (Z.eqb_neq c a)) by lia.
  rewrite Hv1.
  destruct (negb (validate (out_column w))); [discriminate|].
  destruct (bool_decide (dtype (out_column w) = scalar_dtype v)) eqn:Et;
    [|discriminate].
  cbn [negb] in *.
  unfold on_out_column, typed_range_copy_kernel in *.
  destruct ((0 <=? a) && (a <=? b) && (b <=? size (out_column w))) eqn:Eab;
    [|discriminate].
  apply andb_true_iff in Eab as [Eab _]. apply andb_true_iff in Eab as [Ea _].
  apply Z.leb_le in Ea.
  destruct (fold_left _ (seqZ 0 (b - a)) _) as [d1 m1] eqn:Hfold1.
  injection Hfirst as <-.
  cbn [out_column temporaries data valid size dtype dtype_info null_count].
  rewrite Et. cbn [negb].
  replace ((0 <=? b) && (b <=? c) && (c <=? size (out_column w))) with true
    by (symmetry; rewrite !andb_true_iff, !Z.leb_le; lia).
  replace ((0 <=? a) && (a <=? c) && (c <=? size (out_column w))) with true
    by (symmetry; rewrite !andb_true_iff, !Z.leb_le; lia).
  replace (c - a) with ((b - a) + (c - b)) by lia.
  rewrite seqZ_app by lia. rewrite fold_left_app, Hfold1.
  replace (0 + (b - a)) with ((b - a) + 0) by lia.
  rewrite <- (fmap_add_seqZ (b - a) 0 (c - b)).
  destruct (make_functor (scalar_factory v) (dtype (out_column w))) as [s|cr] eqn:Hmk;
    [|discriminate].
  rewrite kernel_loop_scalar_shift.
  replace (a + (b - a)) with b by lia.
  destruct (fold_left _ (seqZ 0 (c - b)) _) as [d2 m2]. reflexivity.
Qed.

End MoreOperations.

(** X12 at a copy between a 32-bit and a 64-bit column and at a fill of a
    column whose buffers are too short for its size. *)
Lemma rejection_by_own_checks_touches_nothing_witness :
  (exists err,
     err <> ReconciliationError
     /\ forall sync_column_categories detail_copy_range,
          copy_range Scenario.validate sync_column_categories detail_copy_range
                     (Scenario.column GDF_INT64 [10; 20; 30; 40; 50] 31 0) 1 4 2
                     (Scenario.start (Scenario.column GDF_INT32 [0; 0; 0; 0; 0] 31 0))
          = Thrown err (Scenario.start (Scenario.column GDF_INT32 [0; 0; 0; 0; 0] 31 0)))
  /\ (exists err,
        (err = ValidationError \/ err = TypeMismatchError)
        /\ forall detail_copy_range,
             fill Scenario.validate detail_copy_range
                  {| scalar_data := 7; scalar_dtype := GDF_INT32; scalar_is_valid := true |}
                  1 3
                  {| out_column := {| data := [1; 2]; valid := [3]; size := 4;
                                      dtype := GDF_INT32; null_count := 0;
                                      dtype_info := {| category := 0 |} |};
                     temporaries := 0 |}
             = Thrown err
                 {| out_column := {| data := [1; 2]; valid := [3]; size := 4;
                                     dtype := GDF_INT32; null_count := 0;
                                     dtype_info := {| category := 0 |} |};
                    temporaries := 0 |}).
Proof.
  split.
  - apply (proj1 (rejection_by_own_checks_touches_nothing
                    Scenario.validate
                    (Scenario.column GDF_INT64 [10; 20; 30; 40; 50] 31 0) 1 4 2
                    {| scalar_data := 7; scalar_dtype := GDF_INT32;
                       scalar_is_valid := true |} 1 3
                    (Scenario.start (Scenario.column GDF_INT32 [0; 0; 0; 0; 0] 31 0))));
      [unfold int32; lia | unfold int32; lia | discriminate | reflexivity].
  - apply (proj2 (rejection_by_own_checks_touches_nothing
                    Scenario.validate
                    (Scenario.column GDF_INT64 [10; 20; 30; 40; 50] 31 0) 1 4 2
                    {| scalar_data := 7; scalar_dtype := GDF_INT32;
                       scalar_is_valid := true |} 1 3
                    {| out_column := {| data := [1; 2]; valid := [3]; size := 4;
                                        dtype := GDF_INT32; null_count := 0;
                                        dtype_info := {| category := 0 |} |};
                       temporaries := 0 |}));
      [discriminate | reflexivity].
Defined.

(** X13 at the integer scenario, with a synchronisation that succeeds and
    one that fails. *)
Lemma copy_range_plain_path_is_direct_witness :
  copy_range Scenario.validate Scenario.sync_same typed_range_copy_kernel
             (Scenario.column GDF_INT32 [10; 20; 30; 40; 50] 31 0) 1 4 2
             (Scenario.start (Scenario.column GDF_INT32 [0; 0; 0; 0; 0] 31 0))
  = copy_range Scenario.validate Scenario.sync_fail typed_range_copy_kernel
               (Scenario.column GDF_INT32 [10; 20; 30; 40; 50] 31 0) 1 4 2
               (Scenario.start (Scenario.column GDF_INT32 [0; 0; 0; 0; 0] 31 0))
  /\ temporaries (Scenario.start (Scenario.column GDF_INT32 [0; 30; 40; 50; 0] 31 0))
     = temporaries (Scenario.start (Scenario.column GDF_INT32 [0; 0; 0; 0; 0] 31 0)).
Proof.
  destruct (copy_range_plain_path_is_direct
              Scenario.validate Scenario.sync_same Scenario.sync_fail
              typed_range_copy_kernel
              (Scenario.column GDF_INT32 [10; 20; 30; 40; 50] 31 0) 1 4 2
              (Scenario.start (Scenario.column GDF_INT32 [0; 0; 0; 0; 0] 31 0)))
    as [Hsame Htemps]; [discriminate|].
  split; [exact Hsame|].
  apply Htemps. left. reflexivity.
Defined.

(** X14 at a category copy that returns, at one whose synchronisation
    fails, and at the fill of the scenario. *)
Lemma temporaries_are_balanced_on_return_witness :
  temporaries
    {| out_column :=
         {| data := [0; 2; 3; 4; 0]; valid := [31]; size := 5;
            dtype := GDF_STRING_CATEGORY; null_count := 0;
            dtype_info := {| category := 1 |} |};
       temporaries := 0 |}
  = temporaries (Scenario.start
                   (Scenario.column GDF_STRING_CATEGORY [0; 0; 0; 0; 0] 31 0))
  /\ (temporaries
        {| out_column := Scenario.column GDF_STRING_CATEGORY [0; 0; 0; 0; 0] 31 0;
           temporaries := 2 |}
      = temporaries (Scenario.start
                       (Scenario.column GDF_STRING_CATEGORY [0; 0; 0; 0; 0] 31 0))
      \/ (dtype (out_column
                   (Scenario.start
                      (Scenario.column GDF_STRING_CATEGORY [0; 0; 0; 0; 0] 31 0)))
          = GDF_STRING_CATEGORY
          /\ temporaries
               {| out_column := Scenario.column GDF_STRING_CATEGORY [0; 0; 0; 0; 0] 31 0;
                  temporaries := 2 |}
             = Nat.add 2 (temporaries
                            (Scenario.start
                               (Scenario.column GDF_STRING_CATEGORY
                                                [0; 0; 0; 0; 0] 31 0))))).
Proof.
  split.
  - apply (proj1 (temporaries_are_balanced_on_return
                    Scenario.validate Scenario.sync_same typed_range_copy_kernel
                    (Scenario.column GDF_STRING_CATEGORY [0; 1; 2; 3; 4] 29 1) 1 4 2
                    {| scalar_data := 7; scalar_dtype := GDF_INT32;
                       scalar_is_valid := false |} 1 3
                    (Scenario.start
                       (Scenario.column GDF_STRING_CATEGORY [0; 0; 0; 0; 0] 31 0))
                    {| out_column :=
                         {| data := [0; 2; 3; 4; 0]; valid := [31]; size := 5;
                            dtype := GDF_STRING_CATEGORY; null_count := 0;
                            dtype_info := {| category := 1 |} |};
                       temporaries := 0 |}
                    ReconciliationError)).
    reflexivity.
  - apply (proj1 (proj2 (temporaries_are_balanced_on_return
                    Scenario.validate Scenario.sync_fail typed_range_copy_kernel
                    (Scenario.column GDF_STRING_CATEGORY [0; 1; 2; 3; 4] 29 1) 1 4 2
                    {| scalar_data := 7; scalar_dtype := GDF_INT32;
                       scalar_is_valid := false |} 1 3
                    (Scenario.start
                       (Scenario.column GDF_STRING_CATEGORY [0; 0; 0; 0; 0] 31 0))
                    {| out_column :=
                         Scenario.column GDF_STRING_CATEGORY [0; 0; 0; 0; 0] 31 0;
                       temporaries := 2 |}
                    ReconciliationError))).
    reflexivity.
Defined.

(** X15 at category columns and the destination range [[4, 7)], which
    leaves the column: the kernel path of the spec throws [RangeError]. *)
Lemma copy_range_kernel_failure_keeps_temporaries_witness :
  copy_range Scenario.validate Scenario.sync_same typed_range_copy_kernel
             (Scenario.column GDF_STRING_CATEGORY [0; 1; 2; 3; 4] 31 0) 4 7 0
             (Scenario.start (Scenario.column GDF_STRING_CATEGORY [0; 0; 0; 0; 0] 31 0))
  = Thrown RangeError
      {| out_column :=
           out_column (Scenario.start
                         (Scenario.column GDF_STRING_CATEGORY [0; 0; 0; 0; 0] 31 0));
         temporaries :=
           Nat.add 2 (temporaries
                        (Scenario.start
                           (Scenario.column GDF_STRING_CATEGORY [0; 0; 0; 0; 0] 31 0))) |}.
Proof.
  apply (copy_range_kernel_failure_keeps_temporaries
           Scenario.validate Scenario.sync_same typed_range_copy_kernel
           (Scenario.column GDF_STRING_CATEGORY [0; 1; 2; 3; 4] 31 0) 4 7 0
           (Scenario.start (Scenario.column GDF_STRING_CATEGORY [0; 0; 0; 0; 0] 31 0))
           RangeError
           {| data := [0; 0; 0; 0; 0]; valid := [31]; size := 5;
              dtype := GDF_STRING_CATEGORY; null_count := 0;
              dtype_info := {| category := 1 |} |});
    try reflexivity; vm_compute; discriminate.
Defined.

(** X16 at category columns whose synchronisation moves the source's
    codes up by one. *)
Lemma category_copy_reencodes_destination_witness :
  exists w',
    copy_range Scenario.validate Scenario.sync_shift typed_range_copy_kernel
               (Scenario.column GDF_STRING_CATEGORY [0; 1; 2; 3; 4] 29 1) 1 4 2
               (Scenario.start (Scenario.column GDF_STRING_CATEGORY [0; 0; 0; 0; 0] 27 1))
    = Returned tt w'
    /\ temporaries w'
       = temporaries (Scenario.start
                        (Scenario.column GDF_STRING_CATEGORY [0; 0; 0; 0; 0] 27 1))
    /\ size (out_column w') = 5
    /\ dtype (out_column w') = GDF_STRING_CATEGORY
    /\ category (dtype_info (out_column w')) = 1
    /\ forall p, 0 <= p -> ~ (1 <= p < 4) ->
         load (data (out_column w')) p = load [0; 0; 0; 0; 0] p
         /\ is_valid (valid (out_column w')) p = is_valid [27] p.
Proof.
  apply (category_copy_reencodes_destination
           Scenario.validate Scenario.sync_shift
           (Scenario.column GDF_STRING_CATEGORY [0; 1; 2; 3; 4] 29 1) 1 4 2
           (Scenario.start (Scenario.column GDF_STRING_CATEGORY [0; 0; 0; 0; 0] 27 1)));
    try reflexivity; vm_compute; discriminate.
Defined.

(** X17 at the copy and the fill of the two scenarios. *)
Lemma only_the_range_is_written_witness :
  (forall p, 0 <= p -> ~ (1 <= p < 4) ->
     load [0; 30; 40; 50; 0] p = load [0; 0; 0; 0; 0] p
     /\ is_valid [31] p = is_valid [31] p)
  /\ (forall p, 0 <= p -> ~ (1 <= p < 3) ->
        load [1; 7; 7; 4] p = load [1; 2; 3; 4] p
        /\ is_valid [9] p = is_valid [15] p).
Proof.
  split.
  - apply (proj1 (only_the_range_is_written
                    Scenario.validate Scenario.sync_same
                    (Scenario.column GDF_INT32 [10; 20; 30; 40; 50] 31 0) 1 4 2
                    {| scalar_data := 7; scalar_dtype := GDF_INT32;
                       scalar_is_valid := false |} 1 3
                    (Scenario.start (Scenario.column GDF_INT32 [0; 0; 0; 0; 0] 31 0))
                    (Scenario.start (Scenario.column GDF_INT32 [0; 30; 40; 50; 0] 31 0))));
      [discriminate | reflexivity].
  - apply (proj2 (only_the_range_is_written
                    Scenario.validate Scenario.sync_same
                    (Scenario.column GDF_INT32 [10; 20; 30; 40; 50] 31 0) 1 4 2
                    {| scalar_data := 7; scalar_dtype := GDF_INT32;
                       scalar_is_valid := false |} 1 3
                    (Scenario.start (Scenario.column GDF_INT32 [1; 2; 3; 4] 15 0))
                    (Scenario.start (Scenario.column GDF_INT32 [1; 7; 7; 4] 9 2)))).
    reflexivity.
Defined.

(** X18 with two sources that differ at the indices 0 and 1 only, read
    from index 2. *)
Lemma copy_range_reads_only_source_range_witness :
  copy_range Scenario.validate Scenario.sync_same typed_range_copy_kernel
             (Scenario.column GDF_INT32 [10; 20; 30; 40; 50] 31 0) 1 4 2
             (Scenario.start (Scenario.column GDF_INT32 [0; 0; 0; 0; 0] 31 0))
  = copy_range Scenario.validate Scenario.sync_same typed_range_copy_kernel
               (Scenario.column GDF_INT32 [11; 21; 30; 40; 50] 28 2) 1 4 2
               (Scenario.start (Scenario.column GDF_INT32 [0; 0; 0; 0; 0] 31 0)).
Proof.
  apply (copy_range_reads_only_source_range
           Scenario.validate Scenario.sync_same
           (Scenario.column GDF_INT32 [10; 20; 30; 40; 50] 31 0)
           (Scenario.column GDF_INT32 [11; 21; 30; 40; 50] 28 2) 1 4 2
           (Scenario.start (Scenario.column GDF_INT32 [0; 0; 0; 0; 0] 31 0)));
    try reflexivity; try discriminate; try (vm_compute; discriminate).
  intros i Hi.
  assert (Hcases : i = 0 \/ i = 1 \/ i = 2) by lia.
  destruct Hcases as [-> | [-> | ->]]; split; reflexivity.
Defined.

(** X19 with the unions 7 and [2^32 + 7] read as 32-bit integers. *)
Lemma fill_reads_scalar_through_its_type_witness :
  fill Scenario.validate typed_range_copy_kernel
       {| scalar_data := 7; scalar_dtype := GDF_INT32; scalar_is_valid := true |}
       1 3 (Scenario.start (Scenario.column GDF_INT32 [1; 2; 3; 4] 15 0))
  = fill Scenario.validate typed_range_copy_kernel
         {| scalar_data := 2 ^ 32 + 7; scalar_dtype := GDF_INT32; scalar_is_valid := true |}
         1 3 (Scenario.start (Scenario.column GDF_INT32 [1; 2; 3; 4] 15 0)).
Proof.
  apply (fill_reads_scalar_through_its_type
           Scenario.validate
           {| scalar_data := 7; scalar_dtype := GDF_INT32; scalar_is_valid := true |}
           {| scalar_data := 2 ^ 32 + 7; scalar_dtype := GDF_INT32;
              scalar_is_valid := true |}
           1 3 (Scenario.start (Scenario.column GDF_INT32 [1; 2; 3; 4] 15 0)));
    reflexivity.
Defined.

(** X20 with the fills of [[1, 2)] and [[2, 3)] against the fill of
    [[1, 3)]. *)
Lemma adjacent_fills_compose_witness :
  fill Scenario.validate typed_range_copy_kernel
       {| scalar_data := 7; scalar_dtype := GDF_INT32; scalar_is_valid := false |}
       2 3 (Scenario.start (Scenario.column GDF_INT32 [1; 7; 3; 4] 13 1))
  = fill Scenario.validate typed_range_copy_kernel
         {| scalar_data := 7; scalar_dtype := GDF_INT32; scalar_is_valid := false |}
         1 3 (Scenario.start (Scenario.column GDF_INT32 [1; 2; 3; 4] 15 0)).
Proof.
  apply (adjacent_fills_compose
           Scenario.validate
           {| scalar_data := 7; scalar_dtype := GDF_INT32; scalar_is_valid := false |}
           1 2 3
           (Scenario.start (Scenario.column GDF_INT32 [1; 2; 3; 4] 15 0))
           (Scenario.start (Scenario.column GDF_INT32 [1; 7; 3; 4] 13 1)));
    try reflexivity; vm_compute; discriminate.
Defined.
